(** * warden-admins-emu: the administrator-resolution action

    A shallow embedding of [src/index.js] and the properties of its
    [main] function: which remote calls are made, which comments are
    posted on the tracking issue, when the run is marked failed and how
    the list of administrators is assembled.

    Modelling conventions.
    - A JavaScript string is a [string]; the white space recognised by
      [String.prototype.trim] is restricted to its ASCII members.
    - [core.getInput] is outside the repository: [Input.t] holds the nine
      values it returns.
    - The remote world is a snapshot: every client method is a function
      from the arguments of the request to its response, [Ok v] for a
      resolved promise and [Throw e] for a rejected one.
    - [client.paginate(method, args)] drains every page before it
      resolves, so it is one request answering with the whole list.
    - Effects are recorded in a log of [event]s, in program order; a
      computation is the log it produces together with its completion,
      normal or exceptional. *)

From Stdlib Require Import List String Ascii ZArith Bool Arith Lia.
From Stdlib Require Import DecimalString.
Import ListNotations.
Open Scope string_scope.
Open Scope list_scope.

(** ** JavaScript strings *)

Module JsString.

Definition lf : string := String (ascii_of_nat 10) EmptyString.

(** The ASCII members of WhiteSpace and LineTerminator: TAB, LF, VT, FF,
    CR and SP. *)
Definition isWhiteSpace (c : ascii) : bool :=
  let n := nat_of_ascii c in
  (n =? 9)%nat || (n =? 10)%nat || (n =? 11)%nat
  || (n =? 12)%nat || (n =? 13)%nat || (n =? 32)%nat.

Definition isSpace (c : ascii) : bool := (nat_of_ascii c =? 32)%nat.

Fixpoint trimStart (s : string) : string :=
  match s with
  | EmptyString => EmptyString
  | String c s' => if isWhiteSpace c then trimStart s' else s
  end.

Fixpoint trimEnd (s : string) : string :=
  match s with
  | EmptyString => EmptyString
  | String c s' =>
      match trimEnd s' with
      | EmptyString => if isWhiteSpace c then EmptyString
                       else String c EmptyString
      | t => String c t
      end
  end.

(** [s.trim()] *)
Definition trim (s : string) : string := trimEnd (trimStart s).

(** [s.split(' ')]: the pieces between consecutive U+0020 characters,
    empty pieces included; the array is never empty. *)
Fixpoint split_space (s : string) : list string :=
  match s with
  | EmptyString => [EmptyString]
  | String c s' =>
      if isSpace c then EmptyString :: split_space s'
      else match split_space s' with
           | t :: ts => String c t :: ts
           | [] => [String c EmptyString]
           end
  end.

(** [xs.includes(x)] on an array of strings *)
Definition includes (xs : list string) (x : string) : bool :=
  existsb (String.eqb x) xs.

(** The tokens of [s] separated by runs of white space, as the words
    "whitespace-separated token" describe them; used only to compare
    with [split_space]. *)
Fixpoint whitespace_tokens_aux (cur : string) (s : string) : list string :=
  match s with
  | EmptyString => match cur with EmptyString => [] | _ => [cur] end
  | String c s' =>
      if isWhiteSpace c
      then match cur with
           | EmptyString => whitespace_tokens_aux EmptyString s'
           | _ => cur :: whitespace_tokens_aux EmptyString s'
           end
      else whitespace_tokens_aux (cur ++ String c EmptyString) s'
  end.

Definition whitespace_tokens (s : string) : list string :=
  whitespace_tokens_aux EmptyString s.

(** Whether [s] has a U+0020, what follows its last U+0020, and whether
    U+0020 is the only white space in it. *)
Fixpoint hasSpace (s : string) : bool :=
  match s with
  | EmptyString => false
  | String c s' => isSpace c || hasSpace s'
  end.

Fixpoint afterLastSpace (s : string) : string :=
  match s with
  | EmptyString => EmptyString
  | String c s' => if isSpace c || hasSpace s' then afterLastSpace s' else s
  end.

Fixpoint spacesOnly (s : string) : bool :=
  match s with
  | EmptyString => true
  | String c s' => (negb (isWhiteSpace c) || isSpace c) && spacesOnly s'
  end.

End JsString.
Import JsString.

(** ** Exceptions, completions and the effect log *)

(** A thrown value, with the two properties the handlers read:
    [e.status] (absent on errors that are not HTTP errors) and
    [e.message]. *)
Record exn := mkExn { status : option Z; message : string }.

(** [e.status === 404] *)
Definition status_is (e : exn) (code : Z) : bool :=
  match status e with
  | Some s => Z.eqb s code
  | None => false
  end.

(** Calling [.filter] on [undefined]. *)
Definition typeError_filter : exn :=
  mkExn None "Cannot read properties of undefined (reading 'filter')".

Inductive result (A : Type) : Type :=
| Ok (a : A)
| Throw (e : exn).
Arguments Ok {A} a.
Arguments Throw {A} e.

Definition isOk {A} (r : result A) : bool :=
  match r with Ok _ => true | Throw _ => false end.

(** The requests of [main], with the arguments it passes. *)
Inductive request : Type :=
| ReposGet (owner repo : string)
| ListCollaborators (owner repo affiliation : string) (per_page : Z)
| ListTeams (owner repo : string)
| ListMembersInOrg (org team_slug : string) (per_page : Z)
| GetByUsername (username : string)
| CreateComment (owner repo issue_number body : string)
| IssuesUpdate (owner repo issue_number state : string).

Inductive event : Type :=
| Info (msg : string)                  (* core.info *)
| SetFailed (msg : string)             (* core.setFailed *)
| Call (r : request) (resolved : bool) (* an awaited request *).

(** A computation: the events it logs and how it completes. *)
Definition M (A : Type) : Type := (list event * result A)%type.

Definition ret {A} (a : A) : M A := ([], Ok a).

Definition throw {A} (e : exn) : M A := ([], Throw e).

Definition bind {A B} (m : M A) (f : A -> M B) : M B :=
  match m with
  | (t, Ok a) => let (t', r) := f a in (t ++ t', r)
  | (t, Throw e) => (t, Throw e)
  end.

(** [try { m } catch (e) { h e }] *)
Definition try_catch {A} (m : M A) (h : exn -> M A) : M A :=
  match m with
  | (t, Ok a) => (t, Ok a)
  | (t, Throw e) => let (t', r) := h e in (t ++ t', r)
  end.

Definition emit (e : event) : M unit := ([e], Ok tt).

(** [await] of a request whose response is [r]. *)
Definition await {A} (q : request) (r : result A) : M A :=
  ([Call q (isOk r)], r).

Declare Scope js_scope.
Delimit Scope js_scope with js.
Notation "x <- m ;; k" := (bind m (fun x => k))
  (at level 61, m at next level, right associativity) : js_scope.
Notation "m ;; k" := (bind m (fun _ => k))
  (at level 61, right associativity) : js_scope.

Definition trace {A} (m : M A) : list event := fst m.
Definition completion {A} (m : M A) : result A := snd m.

(** ** Data returned by the API *)

(** An element of [repos.listCollaborators]: [login] and
    [permissions.admin]. *)
Record Collaborator := mkCollaborator
  { login : string; permissions_admin : bool }.

(** An element of [repos.listTeams]. *)
Record Team := mkTeam
  { name : string; slug : string; permission : string }.

(** An element of [teams.listMembersInOrg]. *)
Record Member := mkMember { member_login : string }.

(** The [data] of [users.getByUsername]; [email] is [null] when the user
    publishes none. *)
Record User := mkUser { email : option string }.

(** [`${v}`] for a value that is a string or [null]. *)
Definition template_nullable (v : option string) : string :=
  match v with
  | Some s => s
  | None => "null"
  end.

(** The methods of an Octokit client that [main] uses. *)
Record Octokit := mkOctokit
  { repos_get : string -> string -> result unit;
    repos_listCollaborators :
      string -> string -> string -> Z -> result (list Collaborator);
    repos_listTeams : string -> string -> result (list Team);
    teams_listMembersInOrg : string -> string -> Z -> result (list Member);
    users_getByUsername : string -> result User;
    issues_createComment :
      string -> string -> string -> string -> result unit;
    issues_update : string -> string -> string -> string -> result unit }.

(** The values of the action's inputs, as [core.getInput] returns them. *)
Module Input.
Record t := mk
  { actor : string;
    admin_token : string;
    body : string;
    close_issue : string;
    issue_number : string;
    issue_org : string;
    org : string;
    repo : string;
    token : string }.
End Input.

(** ** The throttling handlers of [newClient] *)

(** What the handlers of lines 13-26 read of [options]: [method], [url]
    and [request.retryCount]. *)
Record RequestOptions := mkRequestOptions
  { method : string; url : string; request_retryCount : Z }.

(** [octokit.log.warn] and [octokit.log.info]. *)
Inductive logLine : Type :=
| LogWarn (msg : string)
| LogInfo (msg : string).

(** [`${n}`] for an integer number of seconds. *)
Definition template_integer (n : Z) : string :=
  NilZero.string_of_int (Z.to_int n).

(** The lines a handler logs and the value it returns: [Some true] for
    [true], [None] for [undefined]. *)
Definition handlerResult : Type := (list logLine * option bool)%type.

(** Lines 13-19. *)
Definition onRateLimit (retryAfter : Z) (options : RequestOptions)
  : handlerResult :=
  let warned :=
    [LogWarn ("Request quota exhausted for request " ++ method options
              ++ " " ++ url options)] in
  if (request_retryCount options =? 0)%Z
  then (warned ++ [LogInfo ("Retrying after " ++ template_integer retryAfter
                            ++ " seconds!")],
        Some true)
  else (warned, None).

(** Lines 20-26. *)
Definition onSecondaryRateLimit (retryAfter : Z) (options : RequestOptions)
  : handlerResult :=
  let warned :=
    [LogWarn ("Abuse detected for request " ++ method options ++ " "
              ++ url options)] in
  if (request_retryCount options =? 0)%Z
  then (warned ++ [LogInfo ("Retrying after " ++ template_integer retryAfter
                            ++ " seconds!")],
        Some true)
  else (warned, None).

(** ** The action: [sendComment] and [main] *)

Open Scope js_scope.

(** [sendComment(client, org, repo, issueNumber, body)], lines 31-39. *)
Definition sendComment (client : Octokit)
    (org repo issueNumber body : string) : M unit :=
  emit (Info ("Sending comment to " ++ org ++ "/" ++ repo ++ "#"
              ++ issueNumber)) ;;
  await (CreateComment org repo issueNumber body)
        (issues_createComment client org repo issueNumber body).

Section Main.

(** [newClient(token)], lines 8-29: retries and throttling belong to the
    transport, so a client is the responses it gives. *)
Variable newClient : string -> Octokit.
Variable i : Input.t.

Local Abbreviation actor := (Input.actor i).
Local Abbreviation adminToken := (Input.admin_token i).
Local Abbreviation issueNumber := (Input.issue_number i).
Local Abbreviation issueOrg := (Input.issue_org i).
Local Abbreviation org := (Input.org i).
Local Abbreviation repo := (Input.repo i).
Local Abbreviation githubToken := (Input.token i).

(** Lines 44, 45 and 51. *)
Definition _body : list string := split_space (trim (Input.body i)).
Definition closeIssue : bool := String.eqb (Input.close_issue i) "true".
Definition queryRepo : string := last _body EmptyString.

(** Lines 53 and 54. *)
Definition client : Octokit := newClient adminToken.
Definition commentClient : Octokit := newClient githubToken.

(** The comment bodies, in the order of the template literals of lines
    64, 67, 81, 95, 114, 120 and 123. *)
Definition comment_repoNotFound : string :=
  "@" ++ actor ++ lf ++ lf
  ++ "There was an error retrieving the direct admins for `" ++ repo
  ++ "`:" ++ lf ++ lf ++ "The repository `" ++ org ++ "/" ++ queryRepo
  ++ "` does not exist in the target organization `" ++ org ++ "`."
  ++ lf ++ lf
  ++ "Ensure you've provided the correct organization and repository name.".

Definition comment_verificationError (msg : string) : string :=
  "@" ++ actor ++ lf ++ lf
  ++ "There was an error verifying the repository " ++ queryRepo
  ++ " exists:" ++ lf ++ lf ++ msg.

Definition comment_collaboratorLookupError (msg : string) : string :=
  "@" ++ actor ++ lf ++ lf
  ++ "There was an error retrieving the direct admins for `" ++ org ++ "/"
  ++ repo ++ "`:" ++ lf ++ lf ++ msg.

Definition comment_teamLookupError (msg : string) : string :=
  "@" ++ actor ++ lf ++ lf
  ++ "There was an error retrieving the teams for `" ++ org ++ "/" ++ repo
  ++ "`:" ++ lf ++ lf ++ msg.

Definition comment_teamMemberLookupError (teamName msg : string) : string :=
  "@" ++ actor ++ lf ++ lf
  ++ "There was an error retrieving the members for " ++ teamName ++ ":"
  ++ lf ++ lf ++ msg.

Definition comment_noAdminsFound : string :=
  "@" ++ actor ++ lf ++ lf ++ "There are no admins for " ++ queryRepo.

Definition comment_successHeader : string :=
  "The following users have been identified as having `administrator` access to https://github.com/"
  ++ org ++ "/" ++ queryRepo ++ ":" ++ lf ++ lf.

(** Lines 56-69.  The value is [true] when [main] returns from inside the
    handler. *)
Definition verifyRepository : M bool :=
  try_catch
    (emit (Info ("Verifying repository " ++ org ++ "/" ++ queryRepo
                 ++ " exists")) ;;
     await (ReposGet org queryRepo) (repos_get client org queryRepo) ;;
     ret false)
    (fun e =>
       if status_is e 404
       then sendComment commentClient issueOrg repo issueNumber
              comment_repoNotFound ;;
            ret true
       else sendComment commentClient issueOrg repo issueNumber
              (comment_verificationError (message e)) ;;
            emit (SetFailed (message e)) ;;
            ret false).

(** Lines 71-83: [members] stays [undefined] ([None]) when the listing
    throws. *)
Definition listDirectMembers : M (option (list Collaborator)) :=
  try_catch
    (emit (Info ("Retrieving direct admins for " ++ org ++ "/"
                 ++ queryRepo)) ;;
     ms <- await (ListCollaborators org queryRepo "direct" 100)
                 (repos_listCollaborators client org queryRepo "direct" 100) ;;
     ret (Some ms))
    (fun e =>
       sendComment commentClient issueOrg repo issueNumber
         (comment_collaboratorLookupError (message e)) ;;
       emit (SetFailed (message e)) ;;
       ret None).

(** Line 85 on a defined list. *)
Definition directAdmins (members : list Collaborator) : list string :=
  map login (filter permissions_admin members).

(** Line 85. *)
Definition filterAdmins (members : option (list Collaborator))
  : M (list string) :=
  match members with
  | Some ms => ret (directAdmins ms)
  | None => throw typeError_filter
  end.

(** Lines 87-97. *)
Definition listRepoTeams : M (option (list Team)) :=
  try_catch
    (emit (Info ("Retrieving teams for " ++ org ++ "/" ++ repo)) ;;
     ts <- await (ListTeams org queryRepo)
                 (repos_listTeams client org queryRepo) ;;
     ret (Some ts))
    (fun e =>
       sendComment commentClient issueOrg repo issueNumber
         (comment_teamLookupError (message e)) ;;
       emit (SetFailed (message e)) ;;
       ret None).

(** Line 99 on a defined list. *)
Definition adminTeamsOf (teams : list Team) : list Team :=
  filter (fun t => String.eqb (permission t) "admin") teams.

(** Line 99. *)
Definition filterAdminTeams (teams : option (list Team)) : M (list Team) :=
  match teams with
  | Some ts => ret (adminTeamsOf ts)
  | None => throw typeError_filter
  end.

(** Lines 108-112: push the logins that [admins] does not include yet. *)
Fixpoint pushMembers (admins : list string) (members : list Member)
  : list string :=
  match members with
  | [] => admins
  | member :: rest =>
      if negb (includes admins (member_login member))
      then pushMembers (admins ++ [member_login member]) rest
      else pushMembers admins rest
  end.

(** Lines 101-116, the body of the loop over the admin teams. *)
Definition expandTeam (admins : list string) (team : Team)
  : M (list string) :=
  try_catch
    (emit (Info ("Retrieving members for " ++ name team)) ;;
     members <- await (ListMembersInOrg org (slug team) 100)
                      (teams_listMembersInOrg client org (slug team) 100) ;;
     ret (pushMembers admins members))
    (fun e =>
       sendComment commentClient issueOrg repo issueNumber
         (comment_teamMemberLookupError (name team) (message e)) ;;
       emit (SetFailed (message e)) ;;
       ret admins).

(** Lines 100-117. *)
Fixpoint expandTeams (admins : list string) (adminTeams : list Team)
  : M (list string) :=
  match adminTeams with
  | [] => ret admins
  | team :: rest =>
      admins' <- expandTeam admins team ;;
      expandTeams admins' rest
  end.

(** Lines 124-130: the body grows by one line per admin. *)
Fixpoint appendEmails (body : string) (admins : list string) : M string :=
  match admins with
  | [] => ret body
  | admin :: rest =>
      emit (Info ("Retrieving email for " ++ admin)) ;;
      user <- await (GetByUsername admin)
                    (users_getByUsername client admin) ;;
      appendEmails (body ++ "- " ++ template_nullable (email user) ++ lf)
                   rest
  end.

(** Lines 119-132. *)
Definition reportAdmins (admins : list string) : M unit :=
  if (List.length admins =? 0)%nat
  then sendComment commentClient issueOrg repo issueNumber
         comment_noAdminsFound ;;
       emit (SetFailed ("There are no admins for " ++ queryRepo))
  else body <- appendEmails comment_successHeader admins ;;
       sendComment commentClient issueOrg repo issueNumber body.

(** Lines 134-141. *)
Definition closeIssueIfRequested : M unit :=
  if closeIssue
  then await (IssuesUpdate issueOrg repo issueNumber "closed")
             (issues_update commentClient issueOrg repo issueNumber "closed")
  else ret tt.

(** Lines 71-117: the admin logins, direct collaborators first, then the
    members of the admin teams. *)
Definition resolveAdmins : M (list string) :=
  members <- listDirectMembers ;;
  admins <- filterAdmins members ;;
  teams <- listRepoTeams ;;
  adminTeams <- filterAdminTeams teams ;;
  expandTeams admins adminTeams.

(** Lines 71-141: what [main] does once the handler of the existence
    check has not returned. *)
Definition resolveAndReport : M unit :=
  admins <- resolveAdmins ;;
  reportAdmins admins ;;
  closeIssueIfRequested.

(** [main], lines 41-142. *)
Definition main : M unit :=
  returned <- verifyRepository ;;
  if returned then ret tt else resolveAndReport.

End Main.

Close Scope js_scope.

(** ** Observations on a log *)

(** The bodies of the comments that were posted: the [createComment]
    requests that resolved. *)
Definition posted (tr : list event) : list string :=
  flat_map (fun ev => match ev with
                      | Call (CreateComment _ _ _ b) true => [b]
                      | _ => []
                      end) tr.

(** Whether [core.setFailed] was called: the process exit code is 1. *)
Definition markedFailed (tr : list event) : bool :=
  existsb (fun ev => match ev with SetFailed _ => true | _ => false end) tr.

(** The requests that were sent, resolved or not. *)
Definition requests (tr : list event) : list request :=
  flat_map (fun ev => match ev with Call q _ => [q] | _ => [] end) tr.

Definition isCreateComment (ev : event) : bool :=
  match ev with Call (CreateComment _ _ _ _) _ => true | _ => false end.

Definition isIssuesUpdate (ev : event) : bool :=
  match ev with Call (IssuesUpdate _ _ _ _) _ => true | _ => false end.

(** What a resolved [sendComment] of [main] logs, and what a handler that
    also calls [core.setFailed] logs. *)
Definition commentEvents (i : Input.t) (b : string) : list event :=
  [Info ("Sending comment to " ++ Input.issue_org i ++ "/" ++ Input.repo i
         ++ "#" ++ Input.issue_number i);
   Call (CreateComment (Input.issue_org i) (Input.repo i)
           (Input.issue_number i) b) true].

Definition failureEvents (i : Input.t) (b msg : string) : list event :=
  commentEvents i b ++ [SetFailed msg].

(** Every [createComment] request of the comment client resolves. *)
Definition commentsResolve (newClient : string -> Octokit) (i : Input.t)
  : Prop :=
  forall o r n b,
    issues_createComment (commentClient newClient i) o r n b = Ok tt.

(** The existence check of line 58 does not reject with status 404. *)
Definition notRejected404 (newClient : string -> Octokit) (i : Input.t)
  : Prop :=
  forall e,
    repos_get (client newClient i) (Input.org i) (queryRepo i) = Throw e ->
    status_is e 404 = false.



(** [s.startsWith(p)] *)
Definition startsWith (s p : string) : bool := String.prefix p s.

(** ** The events [main] can log *)

(** The bodies of the six comments that report a failure. *)
Inductive failureBody (i : Input.t) : string -> Prop :=
| fb_repoNotFound : failureBody i (comment_repoNotFound i)
| fb_verificationError msg :
    failureBody i (comment_verificationError i msg)
| fb_collaboratorLookupError msg :
    failureBody i (comment_collaboratorLookupError i msg)
| fb_teamLookupError msg : failureBody i (comment_teamLookupError i msg)
| fb_teamMemberLookupError teamName msg :
    failureBody i (comment_teamMemberLookupError i teamName msg)
| fb_noAdminsFound : failureBody i (comment_noAdminsFound i).

(** The events of lines 56-132, everything before the issue update. *)
Inductive blockEvent (i : Input.t) : event -> Prop :=
| be_info msg : blockEvent i (Info msg)
| be_setFailed msg : blockEvent i (SetFailed msg)
| be_reposGet ok :
    blockEvent i (Call (ReposGet (Input.org i) (queryRepo i)) ok)
| be_listCollaborators ok :
    blockEvent i
      (Call (ListCollaborators (Input.org i) (queryRepo i) "direct" 100) ok)
| be_listTeams ok :
    blockEvent i (Call (ListTeams (Input.org i) (queryRepo i)) ok)
| be_listMembersInOrg team_slug ok :
    blockEvent i (Call (ListMembersInOrg (Input.org i) team_slug 100) ok)
| be_getByUsername username ok :
    blockEvent i (Call (GetByUsername username) ok)
| be_failureComment b ok :
    failureBody i b ->
    blockEvent i
      (Call (CreateComment (Input.issue_org i) (Input.repo i)
               (Input.issue_number i) b) ok)
| be_successComment lines ok :
    blockEvent i
      (Call (CreateComment (Input.issue_org i) (Input.repo i)
               (Input.issue_number i) (comment_successHeader i ++ lines)) ok).

(** The issue update of lines 134-141, when it is requested. *)
Definition closeEvent (i : Input.t) (ok : bool) : event :=
  Call (IssuesUpdate (Input.issue_org i) (Input.repo i)
          (Input.issue_number i) "closed") ok.

(** ** The statements about comments and addressing *)

(** The body of a comment begins with the mention of the actor. *)
Definition mentionsActorFirst (i : Input.t) (b : string) : bool :=
  startsWith b ("@" ++ Input.actor i).

(** A comment is either prefixed with the mention, or it begins with the
    header of the success listing and has no such prefix. *)
Definition commentPrefix (i : Input.t) (q : request) : Prop :=
  match q with
  | CreateComment _ _ _ b =>
      mentionsActorFirst i b = true
      \/ (startsWith b (comment_successHeader i) = true
          /\ mentionsActorFirst i b = false)
  | _ => True
  end.

(** Where each request is addressed: the lookups of the repository go to
    [org] and the last piece of the trimmed [body] split at U+0020, the
    comments and the update to the tracking issue. *)
Definition addressed (i : Input.t) (q : request) : Prop :=
  match q with
  | ReposGet o r | ListCollaborators o r _ _ | ListTeams o r =>
      o = Input.org i
      /\ r = last (split_space (trim (Input.body i))) EmptyString
  | ListMembersInOrg o _ _ => o = Input.org i
  | GetByUsername _ => True
  | CreateComment o r n _ =>
      o = Input.issue_org i /\ r = Input.repo i
      /\ n = Input.issue_number i
  | IssuesUpdate o r n s =>
      o = Input.issue_org i /\ r = Input.repo i
      /\ n = Input.issue_number i /\ s = "closed"
  end.

(** The line of the success listing for one user, and the listing for
    the admins in their order, as the specification words it. *)
Definition emailLine (u : User) : string :=
  "- " ++ template_nullable (email u) ++ lf.

Definition successListing (i : Input.t) (profile : string -> User)
    (admins : list string) : string :=
  comment_successHeader i
  ++ String.concat "" (map (fun a => emailLine (profile a)) admins).

(** What the loop of lines 124-130 logs when every profile is fetched. *)
Definition profileEvents (admins : list string) : list event :=
  flat_map (fun a => [Info ("Retrieving email for " ++ a);
                      Call (GetByUsername a) true]) admins.

(** The logins of the members of a team, when the listing resolves. *)
Definition listedBy (newClient : string -> Octokit) (i : Input.t)
    (team : Team) (x : string) : Prop :=
  exists members,
    teams_listMembersInOrg (client newClient i) (Input.org i) (slug team) 100
      = Ok members
    /\ In x (map member_login members).

(** The comments that the loop over [teams] owes: one for each team
    whose members cannot be listed, in the order of the teams. *)
Definition memberLookupFailures (newClient : string -> Octokit)
    (i : Input.t) (teams : list Team) : list string :=
  flat_map
    (fun team =>
       match teams_listMembersInOrg (client newClient i) (Input.org i)
               (slug team) 100 with
       | Ok _ => []
       | Throw e =>
           [comment_teamMemberLookupError i (name team) (message e)]
       end)
    teams.

(** The admin teams whose members cannot be listed, each with the error
    of its listing, in the order of the teams. *)
Definition memberFailures (newClient : string -> Octokit) (i : Input.t)
    (teams : list Team) : list (Team * exn) :=
  flat_map
    (fun team =>
       match teams_listMembersInOrg (client newClient i) (Input.org i)
               (slug team) 100 with
       | Ok _ => []
       | Throw e => [(team, e)]
       end)
    teams.

(** ** When each failure is reported

    [failureOutcome newClient i body msg]: the responses of the world
    lead [main] to one of the handlers that report a failure other than
    the 404 of the existence check, [body] is the comment of that handler
    and [msg] the argument it gives to [core.setFailed].  The names are
    those of the outcome variants of the specification. *)
Inductive failureOutcome (newClient : string -> Octokit) (i : Input.t)
  : string -> string -> Prop :=
| VerificationError e :
    repos_get (client newClient i) (Input.org i) (queryRepo i) = Throw e ->
    status_is e 404 = false ->
    failureOutcome newClient i
      (comment_verificationError i (message e)) (message e)
| CollaboratorLookupError e :
    notRejected404 newClient i ->
    repos_listCollaborators (client newClient i) (Input.org i) (queryRepo i)
      "direct" 100 = Throw e ->
    failureOutcome newClient i
      (comment_collaboratorLookupError i (message e)) (message e)
| TeamLookupError ms e :
    notRejected404 newClient i ->
    repos_listCollaborators (client newClient i) (Input.org i) (queryRepo i)
      "direct" 100 = Ok ms ->
    repos_listTeams (client newClient i) (Input.org i) (queryRepo i)
      = Throw e ->
    failureOutcome newClient i
      (comment_teamLookupError i (message e)) (message e)
| TeamMemberLookupError ms ts team e :
    notRejected404 newClient i ->
    repos_listCollaborators (client newClient i) (Input.org i) (queryRepo i)
      "direct" 100 = Ok ms ->
    repos_listTeams (client newClient i) (Input.org i) (queryRepo i)
      = Ok ts ->
    In team (adminTeamsOf ts) ->
    teams_listMembersInOrg (client newClient i) (Input.org i) (slug team) 100
      = Throw e ->
    failureOutcome newClient i
      (comment_teamMemberLookupError i (name team) (message e)) (message e)
| NoAdminsFound :
    notRejected404 newClient i ->
    completion (resolveAdmins newClient i) = Ok [] ->
    failureOutcome newClient i
      (comment_noAdminsFound i) ("There are no admins for " ++ queryRepo i).

(** ** Further observations *)

(** A [core.setFailed] is only found right after a comment that was
    posted; [commented] tells whether the event before [tr] is one. *)
Fixpoint failuresFollowComments (commented : bool) (tr : list event)
  : bool :=
  match tr with
  | [] => true
  | SetFailed _ :: rest => commented && failuresFollowComments false rest
  | Call (CreateComment _ _ _ _) true :: rest =>
      failuresFollowComments true rest
  | _ :: rest => failuresFollowComments false rest
  end.

(** The same, whatever came before [tr]. *)
Definition wellMarked (tr : list event) : Prop :=
  forall commented, failuresFollowComments commented tr = true.

Definition isRejectedComment (ev : event) : bool :=
  match ev with
  | Call (CreateComment _ _ _ _) false => true
  | _ => false
  end.

(** A [createComment] request that is rejected is the last event. *)
Fixpoint rejectedCommentIsLast (tr : list event) : bool :=
  match tr with
  | [] => true
  | ev :: rest =>
      if isRejectedComment ev
      then match rest with [] => true | _ => false end
      else rejectedCommentIsLast rest
  end.

(** A computation that logs a rejected comment logs it last and
    throws. *)
Definition endsAtRejectedComment {A} (m : M A) : Prop :=
  rejectedCommentIsLast (trace m) = true
  /\ (existsb isRejectedComment (trace m) = true ->
      exists e, completion m = Throw e).

(** Two clients answer the five lookups alike. *)
Definition sameLookups (c c' : Octokit) : Prop :=
  (forall o r, repos_get c o r = repos_get c' o r)
  /\ (forall o r a p,
        repos_listCollaborators c o r a p
        = repos_listCollaborators c' o r a p)
  /\ (forall o r, repos_listTeams c o r = repos_listTeams c' o r)
  /\ (forall o s p,
        teams_listMembersInOrg c o s p = teams_listMembersInOrg c' o s p)
  /\ (forall u, users_getByUsername c u = users_getByUsername c' u).

(** Two clients answer the requests on issues alike. *)
Definition sameIssueCalls (c c' : Octokit) : Prop :=
  (forall o r n b,
     issues_createComment c o r n b = issues_createComment c' o r n b)
  /\ (forall o r n s, issues_update c o r n s = issues_update c' o r n s).

(** The reason [main] has for a request about a team or a user: the team
    is one of the admin teams of the listing, the user is in the admin
    set. *)
Definition justified (newClient : string -> Octokit) (i : Input.t)
    (q : request) : Prop :=
  match q with
  | ListMembersInOrg o s p =>
      exists ts team,
        repos_listTeams (client newClient i) (Input.org i) (queryRepo i)
          = Ok ts
        /\ In team ts
        /\ permission team = "admin"
        /\ s = slug team /\ o = Input.org i /\ p = 100%Z
  | GetByUsername u =>
      exists admins,
        completion (resolveAdmins newClient i) = Ok admins /\ In u admins
  | _ => True
  end.

Definition justifiedEvent (newClient : string -> Octokit) (i : Input.t)
    (ev : event) : Prop :=
  match ev with
  | Call q _ => justified newClient i q
  | _ => True
  end.

(** What the loop over [teams] logs when every team can be listed, and
    the admin set it returns. *)
Definition memberRequests (i : Input.t) (teams : list Team) : list event :=
  flat_map (fun team => [Info ("Retrieving members for " ++ name team);
                         Call (ListMembersInOrg (Input.org i) (slug team)
                                 100) true]) teams.

Definition mergedAdmins (membersOf : Team -> list Member)
    (admins : list string) (teams : list Team) : list string :=
  fold_left (fun acc team => pushMembers acc (membersOf team)) teams admins.

(** ** Concrete worlds *)

Module Scenario.

Definition inputs : Input.t :=
  Input.mk "octocat" "admin-token" "/admins widgets" "true" "7" "ops"
           "acme" "requests" "comment-token".

Definition notFound : exn := mkExn (Some 404%Z) "Not Found".
Definition serverError : exn := mkExn (Some 500%Z) "Server Error".

Definition alice : Collaborator := mkCollaborator "alice" true.
Definition bob : Collaborator := mkCollaborator "bob" false.
Definition core : Team := mkTeam "Core" "core" "admin".
Definition docs : Team := mkTeam "Docs" "docs" "push".
Definition sre : Team := mkTeam "SRE" "sre" "admin".

Definition profiles (username : string) : User :=
  if String.eqb username "alice" then mkUser (Some "alice@example.com")
  else if String.eqb username "carol" then mkUser (Some "carol@example.com")
  else mkUser None.

(** A world given by its five lookups; comments and the issue update
    always resolve. *)
Definition world
    (get : result unit)
    (collaborators : result (list Collaborator))
    (teams : result (list Team))
    (members : string -> result (list Member))
    (users : string -> result User) : string -> Octokit :=
  fun _ =>
    mkOctokit (fun _ _ => get) (fun _ _ _ _ => collaborators)
              (fun _ _ => teams) (fun _ team_slug _ => members team_slug)
              users (fun _ _ _ _ => Ok tt) (fun _ _ _ _ => Ok tt).

Definition coreMembers (team_slug : string) : result (list Member) :=
  if String.eqb team_slug "core"
  then Ok [mkMember "alice"; mkMember "carol"]
  else Ok [mkMember "carol"; mkMember "dave"].

(** [core] cannot be listed, the other teams can. *)
Definition coreFails (team_slug : string) : result (list Member) :=
  if String.eqb team_slug "core" then Throw serverError
  else Ok [mkMember "carol"; mkMember "dave"].

(** Everything resolves. *)
Definition healthy : string -> Octokit :=
  world (Ok tt) (Ok [alice; bob]) (Ok [core; docs; sre]) coreMembers
        (fun u => Ok (profiles u)).

(** The queried repository does not exist. *)
Definition repoMissing : string -> Octokit :=
  world (Throw notFound) (Ok [alice; bob]) (Ok [core; docs; sre])
        coreMembers (fun u => Ok (profiles u)).

(** The existence check fails with status 500; every other request
    resolves. *)
Definition verificationFails : string -> Octokit :=
  world (Throw serverError) (Ok [alice; bob]) (Ok []) coreMembers
        (fun u => Ok (profiles u)).

(** The profile of an admin cannot be fetched. *)
Definition profileFails : string -> Octokit :=
  world (Ok tt) (Ok [alice; bob]) (Ok []) coreMembers
        (fun _ => Throw serverError).

(** The collaborator listing names [alice] twice. *)
Definition aliceTwice : string -> Octokit :=
  world (Ok tt) (Ok [alice; alice]) (Ok []) coreMembers
        (fun u => Ok (profiles u)).

(** The members of [core] cannot be listed. *)
Definition coreUnlisted : string -> Octokit :=
  world (Ok tt) (Ok [alice; bob]) (Ok [core; docs; sre]) coreFails
        (fun u => Ok (profiles u)).


(** [alice] is a direct admin whom no team lists; [core] lists [carol]
    and [dave], [sre] lists [dave] and [erin]; [dave] and [erin] publish
    no e-mail. *)
Definition orderedMembers (team_slug : string) : result (list Member) :=
  if String.eqb team_slug "core"
  then Ok [mkMember "carol"; mkMember "dave"]
  else Ok [mkMember "dave"; mkMember "erin"].

Definition ordered : string -> Octokit :=
  world (Ok tt) (Ok [alice; bob]) (Ok [core; docs; sre]) orderedMembers
        (fun u => Ok (profiles u)).

(** The team listing names [core] twice, and [core] cannot be listed. *)
Definition coreListedTwice : string -> Octokit :=
  world (Ok tt) (Ok [alice; bob]) (Ok [core; sre; core]) coreFails
        (fun u => Ok (profiles u)).

(** A request whose body separates its words with a TAB. *)
Definition tabbedInputs : Input.t :=
  Input.mk "octocat" "admin-token"
           ("/admins" ++ String (ascii_of_nat 9) "widgets")
           "true" "7" "ops" "acme" "requests" "comment-token".

End Scenario.
(** ** Laws of the computation type *)

Section Laws.

Context {A B : Type}.

Lemma bind_ok (m : M A) (f : A -> M B) (a : A) :
  completion m = Ok a ->
  bind m f = (trace m ++ trace (f a), completion (f a)).
Proof.
  destruct m as [t r]; simpl; intros ->.
  destruct (f a) as [t' r']; reflexivity.
Qed.

Lemma trace_bind_prefix (m : M A) (f : A -> M B) :
  exists t, trace (bind m f) = trace m ++ t.
Proof.
  destruct m as [t [a | e]]; simpl.
  - destruct (f a) as [t' r']; simpl; eauto.
  - exists []; now rewrite app_nil_r.
Qed.

Lemma Forall_trace_bind (P : event -> Prop) (m : M A) (f : A -> M B) :
  Forall P (trace m) ->
  (forall a, completion m = Ok a -> Forall P (trace (f a))) ->
  Forall P (trace (bind m f)).
Proof.
  destruct m as [t [a | e]]; simpl; intros Ht Hf; auto.
  specialize (Hf a eq_refl).
  destruct (f a) as [t' r']; simpl in *.
  apply Forall_app; auto.
Qed.

End Laws.

Lemma Forall_trace_try_catch {A} (P : event -> Prop) (m : M A)
    (h : exn -> M A) :
  Forall P (trace m) ->
  (forall e, completion m = Throw e -> Forall P (trace (h e))) ->
  Forall P (trace (try_catch m h)).
Proof.
  destruct m as [t [a | e]]; simpl; intros Ht Hh; auto.
  specialize (Hh e eq_refl).
  destruct (h e) as [t' r']; simpl in *.
  apply Forall_app; auto.
Qed.

Lemma posted_app (t1 t2 : list event) :
  posted (t1 ++ t2) = posted t1 ++ posted t2.
Proof. unfold posted. apply flat_map_app. Qed.

Lemma requests_app (t1 t2 : list event) :
  requests (t1 ++ t2) = requests t1 ++ requests t2.
Proof. unfold requests. apply flat_map_app. Qed.

Lemma markedFailed_app (t1 t2 : list event) :
  markedFailed (t1 ++ t2) = markedFailed t1 || markedFailed t2.
Proof. unfold markedFailed. apply existsb_app. Qed.

Lemma markedFailed_In (tr : list event) (msg : string) :
  In (SetFailed msg) tr -> markedFailed tr = true.
Proof.
  intros H. unfold markedFailed. apply existsb_exists.
  exists (SetFailed msg); auto.
Qed.

Lemma posted_In (tr : list event) (o r n b : string) :
  In (Call (CreateComment o r n b) true) tr -> In b (posted tr).
Proof.
  intros H. unfold posted. apply in_flat_map.
  exists (Call (CreateComment o r n b) true); simpl; auto.
Qed.

(** ** The blocks of [main], one response at a time *)

Ltac step :=
  cbn [bind try_catch emit await ret throw isOk app
       trace completion fst snd].

Section Blocks.

Variable newClient : string -> Octokit.
Variable i : Input.t.

Lemma sendComment_resolves (b : string) :
  commentsResolve newClient i ->
  sendComment (commentClient newClient i) (Input.issue_org i) (Input.repo i)
    (Input.issue_number i) b
  = (commentEvents i b, Ok tt).
Proof.
  intros H. unfold sendComment. rewrite H. reflexivity.
Qed.

Lemma verifyRepository_resolved :
  repos_get (client newClient i) (Input.org i) (queryRepo i) = Ok tt ->
  verifyRepository newClient i
  = ([Info ("Verifying repository " ++ Input.org i ++ "/" ++ queryRepo i
            ++ " exists");
      Call (ReposGet (Input.org i) (queryRepo i)) true],
     Ok false).
Proof.
  intros H. unfold verifyRepository. rewrite H. reflexivity.
Qed.

Lemma verifyRepository_404 (e : exn) :
  commentsResolve newClient i ->
  repos_get (client newClient i) (Input.org i) (queryRepo i) = Throw e ->
  status_is e 404 = true ->
  verifyRepository newClient i
  = ([Info ("Verifying repository " ++ Input.org i ++ "/" ++ queryRepo i
            ++ " exists");
      Call (ReposGet (Input.org i) (queryRepo i)) false]
     ++ commentEvents i (comment_repoNotFound i),
     Ok true).
Proof.
  intros Hc H H404. unfold verifyRepository. rewrite H. step.
  rewrite H404, sendComment_resolves by assumption. reflexivity.
Qed.

Lemma verifyRepository_error (e : exn) :
  commentsResolve newClient i ->
  repos_get (client newClient i) (Input.org i) (queryRepo i) = Throw e ->
  status_is e 404 = false ->
  verifyRepository newClient i
  = ([Info ("Verifying repository " ++ Input.org i ++ "/" ++ queryRepo i
            ++ " exists");
      Call (ReposGet (Input.org i) (queryRepo i)) false]
     ++ failureEvents i (comment_verificationError i (message e))
          (message e),
     Ok false).
Proof.
  intros Hc H H404. unfold verifyRepository. rewrite H. step.
  rewrite H404, sendComment_resolves by assumption. reflexivity.
Qed.

(** Unless the check rejects with 404, [main] goes on after it. *)
Lemma verifyRepository_continues :
  commentsResolve newClient i ->
  notRejected404 newClient i ->
  completion (verifyRepository newClient i) = Ok false.
Proof.
  intros Hc Hn.
  destruct (repos_get (client newClient i) (Input.org i) (queryRepo i))
    as [[] | e] eqn:E.
  - now rewrite verifyRepository_resolved.
  - now rewrite (verifyRepository_error e) by auto.
Qed.

Lemma main_continues :
  commentsResolve newClient i ->
  notRejected404 newClient i ->
  main newClient i
  = (trace (verifyRepository newClient i)
     ++ trace (resolveAndReport newClient i),
     completion (resolveAndReport newClient i)).
Proof.
  intros Hc Hn. unfold main.
  now rewrite (bind_ok _ _ false) by auto using verifyRepository_continues.
Qed.

Lemma listDirectMembers_resolved (ms : list Collaborator) :
  repos_listCollaborators (client newClient i) (Input.org i) (queryRepo i)
    "direct" 100 = Ok ms ->
  listDirectMembers newClient i
  = ([Info ("Retrieving direct admins for " ++ Input.org i ++ "/"
            ++ queryRepo i);
      Call (ListCollaborators (Input.org i) (queryRepo i) "direct" 100)
           true],
     Ok (Some ms)).
Proof.
  intros H. unfold listDirectMembers. rewrite H. reflexivity.
Qed.

Lemma listDirectMembers_error (e : exn) :
  commentsResolve newClient i ->
  repos_listCollaborators (client newClient i) (Input.org i) (queryRepo i)
    "direct" 100 = Throw e ->
  listDirectMembers newClient i
  = ([Info ("Retrieving direct admins for " ++ Input.org i ++ "/"
            ++ queryRepo i);
      Call (ListCollaborators (Input.org i) (queryRepo i) "direct" 100)
           false]
     ++ failureEvents i (comment_collaboratorLookupError i (message e))
          (message e),
     Ok None).
Proof.
  intros Hc H. unfold listDirectMembers. rewrite H. step.
  rewrite sendComment_resolves by assumption. reflexivity.
Qed.

Lemma listRepoTeams_resolved (ts : list Team) :
  repos_listTeams (client newClient i) (Input.org i) (queryRepo i) = Ok ts ->
  listRepoTeams newClient i
  = ([Info ("Retrieving teams for " ++ Input.org i ++ "/" ++ Input.repo i);
      Call (ListTeams (Input.org i) (queryRepo i)) true],
     Ok (Some ts)).
Proof.
  intros H. unfold listRepoTeams. rewrite H. reflexivity.
Qed.

Lemma listRepoTeams_error (e : exn) :
  commentsResolve newClient i ->
  repos_listTeams (client newClient i) (Input.org i) (queryRepo i)
    = Throw e ->
  listRepoTeams newClient i
  = ([Info ("Retrieving teams for " ++ Input.org i ++ "/" ++ Input.repo i);
      Call (ListTeams (Input.org i) (queryRepo i)) false]
     ++ failureEvents i (comment_teamLookupError i (message e)) (message e),
     Ok None).
Proof.
  intros Hc H. unfold listRepoTeams. rewrite H. step.
  rewrite sendComment_resolves by assumption. reflexivity.
Qed.

Lemma expandTeam_resolved (admins : list string) (team : Team)
    (members : list Member) :
  teams_listMembersInOrg (client newClient i) (Input.org i) (slug team) 100
    = Ok members ->
  expandTeam newClient i admins team
  = ([Info ("Retrieving members for " ++ name team);
      Call (ListMembersInOrg (Input.org i) (slug team) 100) true],
     Ok (pushMembers admins members)).
Proof.
  intros H. unfold expandTeam. rewrite H. reflexivity.
Qed.

Lemma expandTeam_error (admins : list string) (team : Team) (e : exn) :
  commentsResolve newClient i ->
  teams_listMembersInOrg (client newClient i) (Input.org i) (slug team) 100
    = Throw e ->
  expandTeam newClient i admins team
  = ([Info ("Retrieving members for " ++ name team);
      Call (ListMembersInOrg (Input.org i) (slug team) 100) false]
     ++ failureEvents i
          (comment_teamMemberLookupError i (name team) (message e))
          (message e),
     Ok admins).
Proof.
  intros Hc H. unfold expandTeam. rewrite H. step.
  rewrite sendComment_resolves by assumption. reflexivity.
Qed.

(** With comments that resolve, the loop over the teams always completes:
    a team that cannot be listed leaves [admins] as it is. *)
Lemma expandTeam_completes (admins : list string) (team : Team) :
  commentsResolve newClient i ->
  exists admins',
    completion (expandTeam newClient i admins team) = Ok admins'.
Proof.
  intros Hc.
  destruct (teams_listMembersInOrg (client newClient i) (Input.org i)
              (slug team) 100) as [ms | e] eqn:E.
  - rewrite (expandTeam_resolved _ _ ms) by assumption. simpl; eauto.
  - rewrite (expandTeam_error _ _ e) by assumption. simpl; eauto.
Qed.

Lemma expandTeams_cons (admins admins' : list string) (team : Team)
    (rest : list Team) :
  completion (expandTeam newClient i admins team) = Ok admins' ->
  expandTeams newClient i admins (team :: rest)
  = (trace (expandTeam newClient i admins team)
     ++ trace (expandTeams newClient i admins' rest),
     completion (expandTeams newClient i admins' rest)).
Proof.
  intros H. cbn [expandTeams]. now rewrite (bind_ok _ _ admins').
Qed.

Lemma expandTeams_completes (teams : list Team) :
  commentsResolve newClient i ->
  forall admins, exists admins',
    completion (expandTeams newClient i admins teams) = Ok admins'.
Proof.
  intros Hc. induction teams as [| team rest IH]; intros admins.
  - simpl; eauto.
  - destruct (expandTeam_completes admins team Hc) as [a1 H1].
    rewrite (expandTeams_cons _ a1) by assumption.
    destruct (IH a1) as [a2 H2]. simpl. eauto.
Qed.

End Blocks.

(** ** Strings *)

(** [s.split(' ')] has at least one piece, so its last element exists. *)
Lemma split_space_nonempty (s : string) : split_space s <> [].
Proof.
  destruct s as [| c s]; simpl; [discriminate |].
  destruct (isSpace c); [discriminate |].
  destruct (split_space s); discriminate.
Qed.

Lemma queryRepo_is_a_piece (i : Input.t) : In (queryRepo i) (_body i).
Proof.
  unfold queryRepo.
  destruct (exists_last (split_space_nonempty (trim (Input.body i))))
    as (pieces & piece & E).
  unfold _body. rewrite E, last_last. apply in_or_app. simpl; auto.
Qed.

Lemma afterLastSpace_without_space (s : string) :
  hasSpace s = false -> afterLastSpace s = s.
Proof.
  destruct s as [| c s]; [reflexivity |].
  cbn [hasSpace afterLastSpace]. now intros ->.
Qed.

Lemma split_space_pieces (s : string) :
  exists t ts,
    split_space s = t :: ts
    /\ (hasSpace s = false -> ts = [] /\ t = s)
    /\ (hasSpace s = true ->
        ts <> [] /\ last ts EmptyString = afterLastSpace s).
Proof.
  induction s as [| c s (t & ts & E & Hno & Hyes)].
  - exists EmptyString, []. repeat split; discriminate.
  - cbn [split_space hasSpace afterLastSpace]. rewrite E.
    destruct (isSpace c); cbn [orb].
    + exists EmptyString, (t :: ts).
      split; [reflexivity |]. split; [discriminate |].
      intros _. split; [discriminate |].
      destruct (hasSpace s) eqn:Hs.
      * destruct (Hyes eq_refl) as [Hne <-].
        destruct ts; [contradiction | reflexivity].
      * destruct (Hno eq_refl) as [-> ->].
        now rewrite afterLastSpace_without_space.
    + exists (String c t), ts. split; [reflexivity |]. split.
      * intros H. destruct (Hno H) as [-> ->]. auto.
      * intros H. rewrite H. now apply Hyes.
Qed.

(** The last piece of [s.split(' ')] is what follows the last U+0020. *)
Lemma last_split_space (s : string) :
  last (split_space s) EmptyString = afterLastSpace s.
Proof.
  destruct (split_space_pieces s) as (t & ts & -> & Hno & Hyes).
  destruct (hasSpace s) eqn:E.
  - destruct (Hyes eq_refl) as [Hne <-].
    destruct ts; [contradiction | reflexivity].
  - destruct (Hno eq_refl) as [-> ->].
    now rewrite afterLastSpace_without_space.
Qed.

Lemma append_assoc (a b c : string) : ((a ++ b) ++ c = a ++ (b ++ c))%string.
Proof. induction a as [| x a IH]; simpl; [reflexivity | now rewrite IH]. Qed.

Lemma append_nil_r (a : string) : (a ++ "" = a)%string.
Proof. induction a as [| x a IH]; simpl; [reflexivity | now rewrite IH]. Qed.

Lemma startsWith_append (p s : string) : startsWith (p ++ s) p = true.
Proof.
  unfold startsWith. induction p as [| x p IH]; simpl.
  - now destruct s.
  - destruct (ascii_dec x x) as [_ | N]; [exact IH | now elim N].
Qed.

Lemma isSpace_isWhiteSpace (c : ascii) :
  isSpace c = true -> isWhiteSpace c = true.
Proof.
  unfold isSpace, isWhiteSpace. intros ->. now rewrite !orb_true_r.
Qed.

Lemma last_whitespace_tokens_aux (s : string) :
  forall cur,
    spacesOnly s = true ->
    s = EmptyString \/ afterLastSpace s <> EmptyString ->
    last (whitespace_tokens_aux cur s) EmptyString
    = if hasSpace s then afterLastSpace s else (cur ++ s)%string.
Proof.
  induction s as [| c s IH]; intros cur Hs Hend.
  - simpl. rewrite append_nil_r. now destruct cur.
  - destruct Hend as [Hend | Hend]; [discriminate |].
    cbn [spacesOnly] in Hs. apply andb_true_iff in Hs as [Hc Hs].
    cbn [whitespace_tokens_aux hasSpace afterLastSpace] in *.
    destruct (isWhiteSpace c) eqn:W.
    + cbn [negb orb] in Hc. rewrite Hc in *. cbn [orb] in *.
      specialize (IH EmptyString Hs (or_intror Hend)).
      assert (E : last (whitespace_tokens_aux EmptyString s) EmptyString
                  = afterLastSpace s).
      { rewrite IH. destruct (hasSpace s) eqn:H; [reflexivity |].
        now rewrite afterLastSpace_without_space. }
      destruct cur; [exact E |].
      destruct (whitespace_tokens_aux EmptyString s);
        [simpl in E; congruence | exact E].
    + assert (Hsp : isSpace c = false).
      { destruct (isSpace c) eqn:S; [| reflexivity].
        apply isSpace_isWhiteSpace in S. congruence. }
      rewrite Hsp in *. cbn [orb] in *.
      rewrite IH, append_assoc; [now destruct (hasSpace s) | assumption |].
      destruct (hasSpace s) eqn:H; [now right |].
      destruct s; [now left | right].
      now rewrite afterLastSpace_without_space.
Qed.

Lemma trimEnd_ends_clean (s : string) :
  trimEnd s = EmptyString \/ afterLastSpace (trimEnd s) <> EmptyString.
Proof.
  induction s as [| c s IH]; [now left |].
  cbn [trimEnd]. destruct (trimEnd s) as [| d t].
  - destruct (isWhiteSpace c) eqn:W; [now left | right].
    cbn [afterLastSpace hasSpace].
    destruct (isSpace c) eqn:S; [| discriminate].
    apply isSpace_isWhiteSpace in S. congruence.
  - right. destruct IH as [IH | IH]; [discriminate |].
    change (afterLastSpace (String c (String d t)))
      with (if isSpace c || hasSpace (String d t)
            then afterLastSpace (String d t) else String c (String d t)).
    destruct (isSpace c || hasSpace (String d t)); [assumption | discriminate].
Qed.

(** When U+0020 is the only white space inside the trimmed body, the
    repository that [main] queries is its last whitespace-separated
    token. *)
Lemma queryRepo_last_whitespace_token (i : Input.t) :
  spacesOnly (trim (Input.body i)) = true ->
  queryRepo i
  = last (whitespace_tokens (trim (Input.body i))) EmptyString.
Proof.
  intros Hs. unfold queryRepo, _body, whitespace_tokens.
  rewrite last_split_space, last_whitespace_tokens_aux;
    [| assumption | apply trimEnd_ends_clean].
  destruct (hasSpace (trim (Input.body i))) eqn:H; [reflexivity |].
  now rewrite afterLastSpace_without_space.
Qed.

(** ** The alphabet of [main] *)

Section Alphabet.

Variable newClient : string -> Octokit.
Variable i : Input.t.

Lemma sendComment_events (b : string) :
  failureBody i b ->
  Forall (blockEvent i)
    (trace (sendComment (commentClient newClient i) (Input.issue_org i)
              (Input.repo i) (Input.issue_number i) b)).
Proof.
  intros Hb. unfold sendComment.
  apply Forall_trace_bind; [| intros ? _]; simpl; repeat constructor; auto.
Qed.

Ltac alphabet :=
  repeat match goal with
    | |- Forall _ (trace (bind _ _)) =>
        apply Forall_trace_bind; [| intros ? _]
    | |- Forall _ (trace (try_catch _ _)) =>
        apply Forall_trace_try_catch; [| intros ? _]
    | |- Forall _ (trace (emit _)) => simpl; repeat constructor
    | |- Forall _ (trace (await _ _)) => simpl; repeat constructor
    | |- Forall _ (trace (ret _)) => simpl; constructor
    | |- Forall _ (trace (throw _)) => simpl; constructor
    | |- Forall _ (trace (if ?b then _ else _)) => destruct b
    | |- Forall _ (trace (sendComment _ _ _ _ _)) =>
        apply sendComment_events; constructor
    end.

Lemma verifyRepository_events :
  Forall (blockEvent i) (trace (verifyRepository newClient i)).
Proof. unfold verifyRepository. alphabet. Qed.

Lemma listDirectMembers_events :
  Forall (blockEvent i) (trace (listDirectMembers newClient i)).
Proof. unfold listDirectMembers. alphabet. Qed.

Lemma listRepoTeams_events :
  Forall (blockEvent i) (trace (listRepoTeams newClient i)).
Proof. unfold listRepoTeams. alphabet. Qed.

Lemma expandTeams_events (teams : list Team) :
  forall admins,
    Forall (blockEvent i) (trace (expandTeams newClient i admins teams)).
Proof.
  induction teams as [| team rest IH]; intros admins; cbn [expandTeams].
  - alphabet.
  - apply Forall_trace_bind; [| intros ? _; apply IH].
    unfold expandTeam. alphabet.
Qed.

Lemma resolveAdmins_events :
  Forall (blockEvent i) (trace (resolveAdmins newClient i)).
Proof.
  unfold resolveAdmins.
  apply Forall_trace_bind; [apply listDirectMembers_events | intros ms _].
  apply Forall_trace_bind; [destruct ms; simpl; constructor | intros ? _].
  apply Forall_trace_bind; [apply listRepoTeams_events | intros ts _].
  apply Forall_trace_bind; [destruct ts; simpl; constructor | intros ? _].
  apply expandTeams_events.
Qed.

Lemma appendEmails_events (admins : list string) :
  forall body,
    Forall (blockEvent i) (trace (appendEmails newClient i body admins)).
Proof.
  induction admins as [| admin rest IH]; intros body; cbn [appendEmails].
  - alphabet.
  - alphabet. apply IH.
Qed.

(** The body that the loop of lines 124-130 returns extends the one it
    starts from. *)
Lemma appendEmails_extends (admins : list string) :
  forall body b,
    completion (appendEmails newClient i body admins) = Ok b ->
    exists lines, b = (body ++ lines)%string.
Proof.
  induction admins as [| admin rest IH]; intros body b; cbn [appendEmails].
  - simpl. intros [= <-]. exists EmptyString. now rewrite append_nil_r.
  - step.
    destruct (users_getByUsername (client newClient i) admin) as [u | e];
      step; [| discriminate].
    destruct (appendEmails newClient i _ rest) as [t r] eqn:E.
    step. intros ->.
    apply (f_equal snd) in E. apply IH in E as [lines ->].
    rewrite append_assoc. eauto.
Qed.

Lemma reportAdmins_events (admins : list string) :
  Forall (blockEvent i) (trace (reportAdmins newClient i admins)).
Proof.
  unfold reportAdmins. destruct (List.length admins =? 0)%nat.
  - alphabet.
  - apply Forall_trace_bind; [apply appendEmails_events | intros b Hb].
    destruct (appendEmails_extends _ _ _ Hb) as [lines ->].
    unfold sendComment.
    apply Forall_trace_bind; [| intros ? _]; simpl;
      repeat first [apply be_successComment | constructor].
Qed.

(** The log of [main]: events of the blocks, then at most the update of
    the issue, which is the last event when it is there. *)
Lemma main_shape :
  exists t c,
    trace (main newClient i) = t ++ c
    /\ Forall (blockEvent i) t
    /\ (c = [] \/ exists ok, c = [closeEvent i ok]).
Proof.
  unfold main.
  destruct (verifyRepository newClient i) as [tv [[] | e]] eqn:Ev;
    pose proof verifyRepository_events as Hv; rewrite Ev in Hv;
    simpl in Hv; step.
  - exists tv, []. rewrite !app_nil_r. auto.
  - unfold resolveAndReport.
    destruct (resolveAdmins newClient i) as [tr [admins | e]] eqn:Er;
      pose proof resolveAdmins_events as Hr; rewrite Er in Hr;
      simpl in Hr; step.
    + destruct (reportAdmins newClient i admins) as [tp [[] | e]] eqn:Ep;
        pose proof (reportAdmins_events admins) as Hp; rewrite Ep in Hp;
        simpl in Hp; step.
      * unfold closeIssueIfRequested. destruct (closeIssue i); step.
        -- exists (tv ++ tr ++ tp), [closeEvent i
             (isOk (issues_update (commentClient newClient i)
                      (Input.issue_org i) (Input.repo i)
                      (Input.issue_number i) "closed"))].
           rewrite <- !app_assoc. repeat split; eauto.
           repeat (apply Forall_app; split); auto.
        -- exists (tv ++ tr ++ tp), []. rewrite !app_nil_r.
           repeat split; auto. repeat (apply Forall_app; split); auto.
      * exists (tv ++ tr ++ tp), []. rewrite !app_nil_r.
        repeat split; auto. repeat (apply Forall_app; split); auto.
    + exists (tv ++ tr), []. rewrite !app_nil_r.
      repeat split; auto. apply Forall_app; auto.
  - exists tv, []. rewrite !app_nil_r. auto.
Qed.

End Alphabet.

(** ** Consequences of the shape of the log *)

Lemma snoc_split {X} (t : list X) (x : X) :
  forall pre ev post,
    t ++ [x] = pre ++ ev :: post ->
    (post = [] /\ ev = x) \/ In ev t.
Proof.
  induction t as [| y t IH]; intros pre ev post; simpl.
  - destruct pre as [| z pre]; simpl.
    + intros [= <- <-]. auto.
    + intros [= _ H]. now destruct pre.
  - destruct pre as [| z pre]; simpl.
    + intros [= <- _]. auto.
    + intros [= _ H]. apply IH in H as [H | H]; auto.
Qed.

Lemma blockEvent_not_update (i : Input.t) (ev : event) :
  blockEvent i ev -> isIssuesUpdate ev = false.
Proof. now destruct 1. Qed.

Lemma blockEvent_addressed (i : Input.t) (t : list event) :
  Forall (blockEvent i) t -> Forall (addressed i) (requests t).
Proof.
  induction 1 as [| ev t Hev _ IH]; simpl; [constructor |].
  destruct Hev; simpl; auto; constructor; auto; simpl;
    unfold queryRepo, _body; auto.
Qed.

Lemma failureBody_mentionsActorFirst (i : Input.t) (b : string) :
  failureBody i b -> mentionsActorFirst i b = true.
Proof.
  destruct 1; unfold mentionsActorFirst, startsWith; simpl;
    (destruct (ascii_dec "@" "@") as [_ | N]; [| now elim N]);
    apply startsWith_append.
Qed.

Lemma successBody_not_mentionsActorFirst (i : Input.t) (lines : string) :
  mentionsActorFirst i (comment_successHeader i ++ lines) = false.
Proof.
  unfold mentionsActorFirst, startsWith. simpl.
  destruct (ascii_dec "@" "T") as [E | _]; [discriminate E | reflexivity].
Qed.

Lemma blockEvent_commentPrefix (i : Input.t) (t : list event) :
  Forall (blockEvent i) t -> Forall (commentPrefix i) (requests t).
Proof.
  induction 1 as [| ev t Hev _ IH]; simpl; [constructor |].
  destruct Hev; simpl; auto; constructor; auto; simpl; auto.
  - left. now apply failureBody_mentionsActorFirst.
  - right. split.
    + apply startsWith_append.
    + apply successBody_not_mentionsActorFirst.
Qed.

(** C9.  In every run, whether it completes or throws, nothing is logged
    after the request that closes the issue: whenever the log of [main]
    splits around an [issues.update] request, no [createComment] request
    is found in the part that follows, which is empty. *)
Theorem comments_precede_issue_update
    (newClient : string -> Octokit) (i : Input.t)
    (pre post : list event) (ev : event) :
  trace (main newClient i) = pre ++ ev :: post ->
  isIssuesUpdate ev = true ->
  post = [] /\ forall ev', In ev' post -> isCreateComment ev' = false.
Proof.
  intros Htr Hup.
  destruct (main_shape newClient i) as (t & c & Hm & Ht & Hc).
  assert (Hnot : ~ In ev t).
  { intros Hin. rewrite Forall_forall in Ht.
    apply Ht, blockEvent_not_update in Hin. congruence. }
  rewrite Hm in Htr.
  assert (post = []) as ->.
  { destruct Hc as [-> | [ok ->]].
    - rewrite app_nil_r in Htr. elim Hnot. rewrite Htr.
      apply in_elt.
    - apply snoc_split in Htr as [[H _] | H]; [assumption | contradiction]. }
  split; [reflexivity | intros ev' []].
Qed.

(** C9, at a run that posts two comments and closes the issue. *)
Lemma comments_precede_issue_update_witness :
  let tr := trace (main Scenario.coreUnlisted Scenario.inputs) in
  posted tr
  = [comment_teamMemberLookupError Scenario.inputs "Core" "Server Error";
     successListing Scenario.inputs Scenario.profiles
       ["alice"; "carol"; "dave"]]
  /\ tr = removelast tr ++ [closeEvent Scenario.inputs true]
  /\ ([] : list event) = []
  /\ forall ev', In ev' [] -> isCreateComment ev' = false.
Proof.
  split; [reflexivity |]. split; [reflexivity |].
  apply (comments_precede_issue_update Scenario.coreUnlisted Scenario.inputs
           (removelast (trace (main Scenario.coreUnlisted Scenario.inputs)))
           [] (closeEvent Scenario.inputs true));
    reflexivity.
Defined.

(** C10, amended.  In every run the existence check, the collaborator
    listing and the team listing are addressed to [org] and to the last
    piece of the trimmed [body] split at the character U+0020, never to
    the [repo] input; every comment and the issue update are addressed to
    [issue_org], [repo] and [issue_number]. *)
Theorem requests_addressed (newClient : string -> Octokit) (i : Input.t) :
  Forall (addressed i) (requests (trace (main newClient i))).
Proof.
  destruct (main_shape newClient i) as (t & c & -> & Ht & Hc).
  rewrite requests_app. apply Forall_app. split.
  - now apply blockEvent_addressed.
  - destruct Hc as [-> | [ok ->]]; simpl; repeat constructor.
Qed.

(** C10 as stated fails: with a TAB between the words of [body] the
    existence check is sent for the whole body, which is not its last
    whitespace-separated token. *)
Lemma target_is_not_last_whitespace_token :
  let i := Scenario.tabbedInputs in
  hd_error (requests (trace (main Scenario.healthy i)))
  = Some (ReposGet "acme" ("/admins" ++ String (ascii_of_nat 9) "widgets"))
  /\ last (whitespace_tokens (trim (Input.body i))) EmptyString = "widgets"
  /\ queryRepo i <> last (whitespace_tokens (trim (Input.body i))) EmptyString.
Proof.
  split; [reflexivity |]. split; [reflexivity |]. discriminate.
Qed.

(** C2, amended.  Each of the six comments that report a failure begins
    with the mention of the actor; every comment that [main] sends either
    begins with that mention or is the success listing, which begins with
    its fixed header and carries no mention in front. *)
Theorem failure_comments_mention_actor
    (newClient : string -> Octokit) (i : Input.t) :
  (forall b, failureBody i b -> mentionsActorFirst i b = true)
  /\ (forall lines,
        mentionsActorFirst i (comment_successHeader i ++ lines) = false)
  /\ Forall (commentPrefix i) (requests (trace (main newClient i))).
Proof.
  split; [apply failureBody_mentionsActorFirst |].
  split; [apply successBody_not_mentionsActorFirst |].
  destruct (main_shape newClient i) as (t & c & -> & Ht & Hc).
  rewrite requests_app. apply Forall_app. split.
  - now apply blockEvent_commentPrefix.
  - destruct Hc as [-> | [ok ->]]; simpl; repeat constructor.
Qed.

(** C2 as stated fails: the comment of a successful run does not begin
    with the mention of the actor. *)
Lemma success_comment_has_no_mention :
  let i := Scenario.inputs in
  posted (trace (main Scenario.healthy i))
  = [successListing i Scenario.profiles ["alice"; "carol"; "dave"]]
  /\ mentionsActorFirst i
       (successListing i Scenario.profiles ["alice"; "carol"; "dave"])
     = false.
Proof. split; reflexivity. Qed.

(** C2, amended, at the comment of a team that cannot be listed and at
    the success listing of the same run. *)
Lemma failure_comments_mention_actor_witness :
  failureBody Scenario.inputs
    (comment_teamMemberLookupError Scenario.inputs "Core" "Server Error")
  /\ mentionsActorFirst Scenario.inputs
       (comment_teamMemberLookupError Scenario.inputs "Core" "Server Error")
     = true
  /\ Forall (commentPrefix Scenario.inputs)
       (requests (trace (main Scenario.coreUnlisted Scenario.inputs))).
Proof.
  destruct (failure_comments_mention_actor Scenario.coreUnlisted
              Scenario.inputs) as (Hf & _ & Hall).
  split; [constructor |]. split; [| exact Hall].
  apply Hf. constructor.
Defined.

(** ** Where the events of a block end up in the log of [main] *)

Lemma incl_trace_bind_l {A B} (l : list event) (m : M A) (f : A -> M B) :
  incl l (trace m) -> incl l (trace (bind m f)).
Proof.
  intros H. destruct (trace_bind_prefix m f) as [t ->].
  now apply incl_appl.
Qed.

Lemma incl_trace_bind_r {A B} (l : list event) (m : M A) (f : A -> M B)
    (a : A) :
  completion m = Ok a -> incl l (trace (f a)) -> incl l (trace (bind m f)).
Proof.
  intros Hm H. rewrite (bind_ok _ _ a) by assumption.
  now apply incl_appr.
Qed.

Lemma failureEvents_incl (i : Input.t) (b msg : string) (tr : list event) :
  incl (failureEvents i b msg) tr ->
  In (Call (CreateComment (Input.issue_org i) (Input.repo i)
              (Input.issue_number i) b) true) tr
  /\ In (SetFailed msg) tr
  /\ In b (posted tr)
  /\ markedFailed tr = true.
Proof.
  intros H.
  assert (H1 : In (Call (CreateComment (Input.issue_org i) (Input.repo i)
                           (Input.issue_number i) b) true) tr)
    by (apply H; simpl; auto).
  assert (H2 : In (SetFailed msg) tr) by (apply H; simpl; auto).
  repeat split; auto.
  - eapply posted_In; eassumption.
  - eapply markedFailed_In; eassumption.
Qed.

Section Paths.

Variable newClient : string -> Octokit.
Variable i : Input.t.

Lemma resolveAdmins_listed (ms : list Collaborator) (ts : list Team) :
  repos_listCollaborators (client newClient i) (Input.org i) (queryRepo i)
    "direct" 100 = Ok ms ->
  repos_listTeams (client newClient i) (Input.org i) (queryRepo i) = Ok ts ->
  resolveAdmins newClient i
  = (trace (listDirectMembers newClient i)
     ++ trace (listRepoTeams newClient i)
     ++ trace (expandTeams newClient i (directAdmins ms) (adminTeamsOf ts)),
     completion (expandTeams newClient i (directAdmins ms)
                   (adminTeamsOf ts))).
Proof.
  intros Hm Ht. unfold resolveAdmins.
  rewrite (listDirectMembers_resolved _ _ ms),
    (listRepoTeams_resolved _ _ ts) by assumption.
  step. cbn [filterAdmins filterAdminTeams]. step.
  destruct (expandTeams newClient i (directAdmins ms) (adminTeamsOf ts)).
  reflexivity.
Qed.

(** The resolution completes only when both listings resolved. *)
Lemma resolveAdmins_inv (admins : list string) :
  completion (resolveAdmins newClient i) = Ok admins ->
  exists ms ts,
    repos_listCollaborators (client newClient i) (Input.org i) (queryRepo i)
      "direct" 100 = Ok ms
    /\ repos_listTeams (client newClient i) (Input.org i) (queryRepo i)
       = Ok ts
    /\ completion (expandTeams newClient i (directAdmins ms)
                     (adminTeamsOf ts)) = Ok admins.
Proof.
  destruct (repos_listCollaborators (client newClient i) (Input.org i)
              (queryRepo i) "direct" 100) as [ms | e] eqn:Em.
  - destruct (repos_listTeams (client newClient i) (Input.org i)
                (queryRepo i)) as [ts | e] eqn:Et.
    + rewrite (resolveAdmins_listed ms ts) by assumption. simpl. eauto.
    + unfold resolveAdmins.
      rewrite (listDirectMembers_resolved _ _ ms) by assumption.
      unfold listRepoTeams, sendComment. rewrite Et.
      step. cbn [filterAdmins]. step.
      destruct (issues_createComment _ _ _ _ _); discriminate.
  - unfold resolveAdmins, listDirectMembers, sendComment. rewrite Em.
    step.
    destruct (issues_createComment _ _ _ _ _); discriminate.
Qed.

Lemma expandTeams_reports (teams : list Team) (team : Team) (e : exn) :
  commentsResolve newClient i ->
  In team teams ->
  teams_listMembersInOrg (client newClient i) (Input.org i) (slug team) 100
    = Throw e ->
  forall admins,
    incl (failureEvents i
            (comment_teamMemberLookupError i (name team) (message e))
            (message e))
         (trace (expandTeams newClient i admins teams)).
Proof.
  intros Hc Hin He.
  induction teams as [| t rest IH]; intros admins; [contradiction |].
  destruct (expandTeam_completes newClient i admins t Hc) as [a1 H1].
  rewrite (expandTeams_cons _ _ _ a1) by assumption.
  cbn [trace fst]. destruct Hin as [-> | Hin].
  - apply incl_appl. rewrite (expandTeam_error _ _ _ _ e) by assumption.
    cbn [trace fst]. apply incl_appr, incl_refl.
  - apply incl_appr. now apply IH.
Qed.

Lemma reportAdmins_none :
  commentsResolve newClient i ->
  reportAdmins newClient i []
  = (failureEvents i (comment_noAdminsFound i)
       ("There are no admins for " ++ queryRepo i),
     Ok tt).
Proof.
  intros Hc. unfold reportAdmins. cbn [List.length Nat.eqb].
  rewrite sendComment_resolves by assumption. reflexivity.
Qed.

Lemma closeIssueIfRequested_log :
  closeIssueIfRequested newClient i
  = ((if closeIssue i
      then [closeEvent i
              (isOk (issues_update (commentClient newClient i)
                       (Input.issue_org i) (Input.repo i)
                       (Input.issue_number i) "closed"))]
      else []),
     if closeIssue i
     then issues_update (commentClient newClient i) (Input.issue_org i)
            (Input.repo i) (Input.issue_number i) "closed"
     else Ok tt).
Proof.
  unfold closeIssueIfRequested. now destruct (closeIssue i).
Qed.

(** A run whose existence check rejects with 404: one comment, no
    failure mark, and [main] returns. *)
Lemma main_repoNotFound (e : exn) :
  commentsResolve newClient i ->
  repos_get (client newClient i) (Input.org i) (queryRepo i) = Throw e ->
  status_is e 404 = true ->
  main newClient i
  = ([Info ("Verifying repository " ++ Input.org i ++ "/" ++ queryRepo i
            ++ " exists");
      Call (ReposGet (Input.org i) (queryRepo i)) false]
     ++ commentEvents i (comment_repoNotFound i),
     Ok tt).
Proof.
  intros Hc He H404. unfold main.
  rewrite (verifyRepository_404 _ _ e) by assumption.
  step. now rewrite app_nil_r.
Qed.

Lemma failureOutcome_logged (b msg : string) :
  commentsResolve newClient i ->
  failureOutcome newClient i b msg ->
  incl (failureEvents i b msg) (trace (main newClient i)).
Proof.
  intros Hc Ho. destruct Ho as [e He H404 | e Hn Hm | ms e Hn Hm Ht
                                | ms ts team e Hn Hm Ht Hin He | Hn Hr].
  - unfold main. apply incl_trace_bind_l.
    rewrite (verifyRepository_error _ _ e) by assumption.
    cbn [trace fst]. apply incl_appr, incl_refl.
  - rewrite main_continues by assumption. cbn [trace fst].
    apply incl_appr. unfold resolveAndReport, resolveAdmins.
    do 2 apply incl_trace_bind_l.
    rewrite (listDirectMembers_error _ _ e) by assumption.
    cbn [trace fst]. apply incl_appr, incl_refl.
  - rewrite main_continues by assumption. cbn [trace fst].
    apply incl_appr. unfold resolveAndReport, resolveAdmins.
    apply incl_trace_bind_l.
    eapply incl_trace_bind_r;
      [now rewrite (listDirectMembers_resolved _ _ ms) |].
    eapply incl_trace_bind_r; [reflexivity |].
    apply incl_trace_bind_l.
    rewrite (listRepoTeams_error _ _ e) by assumption.
    cbn [trace fst]. apply incl_appr, incl_refl.
  - rewrite main_continues by assumption. cbn [trace fst].
    apply incl_appr. unfold resolveAndReport.
    apply incl_trace_bind_l.
    rewrite (resolveAdmins_listed ms ts) by assumption. cbn [trace fst].
    do 2 apply incl_appr. now apply expandTeams_reports.
  - rewrite main_continues by assumption. cbn [trace fst].
    apply incl_appr. unfold resolveAndReport.
    eapply incl_trace_bind_r; [exact Hr |].
    apply incl_trace_bind_l. rewrite reportAdmins_none by assumption.
    apply incl_refl.
Qed.

End Paths.

(** C1, amended.  When comments can be posted, every failure other than
    the 404 of the existence check -- VerificationError,
    CollaboratorLookupError, TeamLookupError, TeamMemberLookupError and
    NoAdminsFound -- has its comment posted and [core.setFailed] called
    with its message, so the run is marked failed; the RepoNotFound path
    posts its comment and returns without marking the run failed. *)
Theorem failures_are_marked_failed
    (newClient : string -> Octokit) (i : Input.t) :
  commentsResolve newClient i ->
  (forall b msg,
     failureOutcome newClient i b msg ->
     In b (posted (trace (main newClient i)))
     /\ In (SetFailed msg) (trace (main newClient i))
     /\ markedFailed (trace (main newClient i)) = true)
  /\ (forall e,
        repos_get (client newClient i) (Input.org i) (queryRepo i)
          = Throw e ->
        status_is e 404 = true ->
        posted (trace (main newClient i)) = [comment_repoNotFound i]
        /\ markedFailed (trace (main newClient i)) = false
        /\ completion (main newClient i) = Ok tt).
Proof.
  intros Hc. split.
  - intros b msg Ho.
    apply failureOutcome_logged, failureEvents_incl in Ho; [| assumption].
    tauto.
  - intros e He H404.
    rewrite (main_repoNotFound _ _ e) by assumption.
    repeat split.
Qed.

(** C1 as stated fails: a repository that does not exist gets its
    comment, and the run ends normally without [core.setFailed]. *)
Lemma repo_not_found_is_not_marked_failed :
  let run := main Scenario.repoMissing Scenario.inputs in
  posted (trace run) = [comment_repoNotFound Scenario.inputs]
  /\ markedFailed (trace run) = false
  /\ completion run = Ok tt.
Proof. repeat split. Qed.

(** C1, amended, at a failing existence check with status 500 and at a
    missing repository. *)
Lemma failures_are_marked_failed_witness :
  commentsResolve Scenario.verificationFails Scenario.inputs
  /\ (In (comment_verificationError Scenario.inputs "Server Error")
         (posted (trace (main Scenario.verificationFails Scenario.inputs)))
      /\ In (SetFailed "Server Error")
            (trace (main Scenario.verificationFails Scenario.inputs))
      /\ markedFailed
           (trace (main Scenario.verificationFails Scenario.inputs)) = true)
  /\ (posted (trace (main Scenario.repoMissing Scenario.inputs))
      = [comment_repoNotFound Scenario.inputs]
      /\ markedFailed (trace (main Scenario.repoMissing Scenario.inputs))
         = false
      /\ completion (main Scenario.repoMissing Scenario.inputs) = Ok tt).
Proof.
  split; [intros o r n b; reflexivity |]. split.
  - apply (proj1 (failures_are_marked_failed Scenario.verificationFails
                    Scenario.inputs (fun o r n b => eq_refl))
             _ _
             (VerificationError Scenario.verificationFails Scenario.inputs
                Scenario.serverError eq_refl eq_refl)).
  - apply (proj2 (failures_are_marked_failed Scenario.repoMissing
                    Scenario.inputs (fun o r n b => eq_refl))
             Scenario.notFound eq_refl eq_refl).
Defined.

(** C3, the failing input.  When the existence check rejects with status
    500, [main] posts the verification comment and goes on: it lists the
    collaborators and the teams, fetches a profile, posts a second comment
    with the admins and closes the issue. *)
Theorem verification_error_does_not_halt :
  let i := Scenario.inputs in
  let tr := trace (main Scenario.verificationFails i) in
  requests tr
  = [ReposGet "acme" "widgets";
     CreateComment "ops" "requests" "7"
       (comment_verificationError i "Server Error");
     ListCollaborators "acme" "widgets" "direct" 100;
     ListTeams "acme" "widgets";
     GetByUsername "alice";
     CreateComment "ops" "requests" "7"
       (successListing i Scenario.profiles ["alice"]);
     IssuesUpdate "ops" "requests" "7" "closed"]
  /\ posted tr
     = [comment_verificationError i "Server Error";
        successListing i Scenario.profiles ["alice"]].
Proof. split; reflexivity. Qed.

(** C4, the failing input.  When the profile of an admin cannot be
    fetched, the exception leaves [main]: no comment is requested, the
    run is not marked failed by [core.setFailed], the issue is not
    updated. *)
Theorem profile_failure_posts_no_comment :
  let run := main Scenario.profileFails Scenario.inputs in
  requests (trace run)
  = [ReposGet "acme" "widgets";
     ListCollaborators "acme" "widgets" "direct" 100;
     ListTeams "acme" "widgets";
     GetByUsername "alice"]
  /\ posted (trace run) = []
  /\ markedFailed (trace run) = false
  /\ completion run = Throw Scenario.serverError.
Proof. repeat split. Qed.

(** ** The admin set *)

Lemma includes_In (xs : list string) (x : string) :
  includes xs x = true <-> In x xs.
Proof.
  unfold includes. rewrite existsb_exists. split.
  - intros (y & Hy & E). apply String.eqb_eq in E. now subst.
  - intros H. exists x. split; [assumption | apply String.eqb_refl].
Qed.

Lemma includes_not_In (xs : list string) (x : string) :
  includes xs x = false <-> ~ In x xs.
Proof.
  rewrite <- includes_In. destruct (includes xs x); split; intuition congruence.
Qed.

(** The inner loop only appends, and what it appends is new, listed and
    free of repetitions. *)
Lemma pushMembers_extends (members : list Member) :
  forall admins, exists ext,
    pushMembers admins members = admins ++ ext
    /\ NoDup ext
    /\ forall x, In x ext ->
         ~ In x admins /\ In x (map member_login members).
Proof.
  induction members as [| m rest IH]; intros admins; cbn [pushMembers].
  - exists []. rewrite app_nil_r. repeat split; [constructor | easy ..].
  - destruct (includes admins (member_login m)) eqn:E; cbn [negb].
    + destruct (IH admins) as (ext & -> & Hnd & Hext).
      exists ext. repeat split; auto; apply Hext in H; simpl; tauto.
    + apply includes_not_In in E.
      destruct (IH (admins ++ [member_login m])) as (ext & -> & Hnd & Hext).
      exists (member_login m :: ext). rewrite <- app_assoc.
      split; [reflexivity |]. split.
      * constructor; [| assumption].
        intros Hin. apply Hext in Hin as [Hin _].
        apply Hin, in_or_app. simpl; auto.
      * intros x [<- | Hin]; [simpl; auto |].
        apply Hext in Hin as [Hn Hl]. split; [| simpl; auto].
        intros Hx. apply Hn, in_or_app. auto.
Qed.

Lemma pushMembers_incl (members : list Member) (admins : list string) :
  incl admins (pushMembers admins members).
Proof.
  destruct (pushMembers_extends members admins) as (ext & -> & _).
  now apply incl_appl.
Qed.

Lemma pushMembers_In (members : list Member) :
  forall admins x,
    In x (map member_login members) -> In x (pushMembers admins members).
Proof.
  induction members as [| m rest IH]; intros admins x; cbn [pushMembers map].
  - contradiction.
  - intros [<- | Hin].
    + destruct (includes admins (member_login m)) eqn:E; cbn [negb].
      * apply pushMembers_incl. now apply includes_In.
      * apply pushMembers_incl, in_or_app. simpl; auto.
    + destruct (negb _); now apply IH.
Qed.

Lemma bind_ok_inv {A B} (m : M A) (f : A -> M B) (b : B) :
  completion (bind m f) = Ok b ->
  exists a, completion m = Ok a /\ completion (f a) = Ok b.
Proof.
  destruct m as [t [a | e]]; simpl; [| discriminate].
  destruct (f a) as [t' r] eqn:E. simpl. intros ->.
  exists a. now rewrite E.
Qed.

Section AdminSet.

Variable newClient : string -> Octokit.
Variable i : Input.t.

Lemma expandTeam_inv (admins admins' : list string) (team : Team) :
  completion (expandTeam newClient i admins team) = Ok admins' ->
  (exists members,
     teams_listMembersInOrg (client newClient i) (Input.org i) (slug team)
       100 = Ok members
     /\ admins' = pushMembers admins members)
  \/ (exists e,
        teams_listMembersInOrg (client newClient i) (Input.org i)
          (slug team) 100 = Throw e
        /\ admins' = admins).
Proof.
  unfold expandTeam, sendComment.
  destruct (teams_listMembersInOrg (client newClient i) (Input.org i)
              (slug team) 100) as [ms | e]; step.
  - intros [= <-]. eauto.
  - destruct (issues_createComment _ _ _ _ _); step;
      [intros [= <-]; eauto | discriminate].
Qed.

Lemma expandTeams_cons_inv (admins admins' : list string) (team : Team)
    (rest : list Team) :
  completion (expandTeams newClient i admins (team :: rest)) = Ok admins' ->
  exists a1,
    completion (expandTeam newClient i admins team) = Ok a1
    /\ completion (expandTeams newClient i a1 rest) = Ok admins'.
Proof. cbn [expandTeams]. apply bind_ok_inv. Qed.

(** The loop over the teams only appends: the admins it starts from stay
    in front, and what follows is new, free of repetitions and listed by
    one of the teams. *)
Lemma expandTeams_extends (teams : list Team) :
  forall admins admins',
    completion (expandTeams newClient i admins teams) = Ok admins' ->
    exists ext,
      admins' = admins ++ ext
      /\ NoDup ext
      /\ forall x, In x ext ->
           ~ In x admins
           /\ exists team, In team teams /\ listedBy newClient i team x.
Proof.
  induction teams as [| team rest IH]; intros admins admins' H.
  - simpl in H. injection H as <-. exists []. rewrite app_nil_r.
    repeat split; [constructor | easy ..].
  - apply expandTeams_cons_inv in H as (a1 & H1 & H2).
    apply IH in H2 as (ext2 & -> & Hnd2 & Hext2).
    apply expandTeam_inv in H1 as [(ms & Hms & ->) | (e & _ & ->)].
    + destruct (pushMembers_extends ms admins) as (ext1 & E1 & Hnd1 & Hext1).
      rewrite E1 in *. exists (ext1 ++ ext2). rewrite app_assoc.
      split; [reflexivity |]. split.
      * apply NoDup_app; auto.
        intros x Hx1 Hx2. apply Hext2 in Hx2 as [Hn _].
        apply Hn, in_or_app. auto.
      * intros x Hx. apply in_app_or in Hx as [Hx | Hx].
        -- apply Hext1 in Hx as [Hn Hl]. split; [assumption |].
           exists team. split; [simpl; auto |]. exists ms. auto.
        -- apply Hext2 in Hx as [Hn (U & HU & Hl)]. split.
           ++ intros Hx. apply Hn, in_or_app. auto.
           ++ exists U. simpl; auto.
    + exists ext2. split; [reflexivity |]. split; [assumption |].
      intros x Hx. apply Hext2 in Hx as [Hn (U & HU & Hl)].
      split; [assumption |]. exists U. simpl; auto.
Qed.

Lemma expandTeams_incl (teams : list Team) (admins admins' : list string) :
  completion (expandTeams newClient i admins teams) = Ok admins' ->
  incl admins admins'.
Proof.
  intros H. apply expandTeams_extends in H as (ext & -> & _).
  now apply incl_appl.
Qed.

(** Every login listed by a team that could be listed is in the set. *)
Lemma expandTeams_members (teams : list Team) :
  forall admins admins',
    completion (expandTeams newClient i admins teams) = Ok admins' ->
    forall team x,
      In team teams -> listedBy newClient i team x -> In x admins'.
Proof.
  induction teams as [| t rest IH]; intros admins admins' H team x Hin Hl.
  - contradiction.
  - apply expandTeams_cons_inv in H as (a1 & H1 & H2).
    destruct Hin as [-> | Hin]; [| eapply IH; eassumption].
    apply (expandTeams_incl _ _ _ H2).
    destruct Hl as (ms & Hms & Hx).
    apply expandTeam_inv in H1 as [(ms' & Hms' & ->) | (e & He & _)];
      [| congruence].
    assert (ms' = ms) as -> by congruence.
    now apply pushMembers_In.
Qed.

Lemma expandTeams_NoDup (teams : list Team) (admins admins' : list string) :
  NoDup admins ->
  completion (expandTeams newClient i admins teams) = Ok admins' ->
  NoDup admins'.
Proof.
  intros Hnd H. apply expandTeams_extends in H as (ext & -> & Hnd' & Hext).
  apply NoDup_app; auto. intros x Hx Hx'. now apply Hext in Hx'.
Qed.

Lemma expandTeams_app_inv (l1 l2 : list Team) :
  forall admins admins',
    completion (expandTeams newClient i admins (l1 ++ l2)) = Ok admins' ->
    exists a1,
      completion (expandTeams newClient i admins l1) = Ok a1
      /\ completion (expandTeams newClient i a1 l2) = Ok admins'.
Proof.
  induction l1 as [| t l1 IH]; intros admins admins' H.
  - exists admins. auto.
  - rewrite <- app_comm_cons in H.
    apply expandTeams_cons_inv in H as (a0 & H0 & H).
    apply IH in H as (a1 & H1 & H2). exists a1. split; [| assumption].
    now rewrite (expandTeams_cons _ _ _ a0).
Qed.

End AdminSet.

(** C5, amended.  When the collaborator listing names no admin login
    twice, the admin set that the resolution returns has no repetition:
    a login that is a direct admin, or that is listed by any number of
    admin teams, occurs in it exactly once. *)
Theorem admin_set_has_no_duplicates
    (newClient : string -> Octokit) (i : Input.t)
    (ms : list Collaborator) (ts : list Team) (admins : list string) :
  repos_listCollaborators (client newClient i) (Input.org i) (queryRepo i)
    "direct" 100 = Ok ms ->
  repos_listTeams (client newClient i) (Input.org i) (queryRepo i) = Ok ts ->
  NoDup (directAdmins ms) ->
  completion (resolveAdmins newClient i) = Ok admins ->
  NoDup admins
  /\ forall x,
       In x (directAdmins ms)
       \/ (exists team,
             In team (adminTeamsOf ts) /\ listedBy newClient i team x) ->
       count_occ string_dec admins x = 1.
Proof.
  intros Hm Ht Hnd H.
  rewrite (resolveAdmins_listed _ _ ms ts) in H by assumption.
  cbn [completion snd] in H.
  assert (Hnd' : NoDup admins) by (eapply expandTeams_NoDup; eassumption).
  split; [assumption |].
  intros x Hx. apply NoDup_count_occ'; [assumption |].
  destruct Hx as [Hx | (team & Hin & Hl)].
  - eapply expandTeams_incl; eassumption.
  - eapply expandTeams_members; eassumption.
Qed.

(** C5, amended, at a run where [alice] is a direct admin and a member of
    an admin team and [carol] a member of two admin teams. *)
Lemma admin_set_has_no_duplicates_witness :
  NoDup (directAdmins [Scenario.alice; Scenario.bob])
  /\ completion (resolveAdmins Scenario.healthy Scenario.inputs)
     = Ok ["alice"; "carol"; "dave"]
  /\ NoDup ["alice"; "carol"; "dave"]
  /\ forall x,
       In x (directAdmins [Scenario.alice; Scenario.bob])
       \/ (exists team,
             In team (adminTeamsOf
                        [Scenario.core; Scenario.docs; Scenario.sre])
             /\ listedBy Scenario.healthy Scenario.inputs team x) ->
       count_occ string_dec ["alice"; "carol"; "dave"] x = 1.
Proof.
  assert (Hnd : NoDup (directAdmins [Scenario.alice; Scenario.bob]))
    by (repeat constructor; simpl; tauto).
  split; [exact Hnd |]. split; [reflexivity |].
  apply (admin_set_has_no_duplicates Scenario.healthy Scenario.inputs
           [Scenario.alice; Scenario.bob]
           [Scenario.core; Scenario.docs; Scenario.sre]
           ["alice"; "carol"; "dave"] eq_refl eq_refl Hnd eq_refl).
Defined.

(** C5 as stated fails: a collaborator listing that names the admin
    [alice] twice gives an admin set with [alice] twice. *)
Lemma duplicate_collaborator_is_kept :
  completion (resolveAdmins Scenario.aliceTwice Scenario.inputs)
  = Ok ["alice"; "alice"]
  /\ ~ NoDup ["alice"; "alice"]
  /\ count_occ string_dec ["alice"; "alice"] "alice" = 2.
Proof.
  split; [reflexivity |]. split; [| reflexivity].
  intros H. inversion H as [| x l Hn _]. apply Hn. simpl; auto.
Qed.

(** ** The loop over the teams *)

Section TeamLoop.

Variable newClient : string -> Octokit.
Variable i : Input.t.
Hypothesis Hc : commentsResolve newClient i.

Lemma expandTeam_posted (admins : list string) (team : Team) :
  posted (trace (expandTeam newClient i admins team))
  = memberLookupFailures newClient i [team].
Proof.
  unfold memberLookupFailures. cbn [flat_map]. rewrite app_nil_r.
  destruct (teams_listMembersInOrg (client newClient i) (Input.org i)
              (slug team) 100) as [ms | e] eqn:E.
  - now rewrite (expandTeam_resolved _ _ _ _ ms).
  - now rewrite (expandTeam_error _ _ _ _ e).
Qed.

Lemma expandTeam_requests (admins : list string) (team : Team) :
  In (ListMembersInOrg (Input.org i) (slug team) 100)
     (requests (trace (expandTeam newClient i admins team))).
Proof.
  destruct (teams_listMembersInOrg (client newClient i) (Input.org i)
              (slug team) 100) as [ms | e] eqn:E.
  - rewrite (expandTeam_resolved _ _ _ _ ms) by assumption. simpl; auto.
  - rewrite (expandTeam_error _ _ _ _ e) by assumption. simpl; auto.
Qed.

(** One comment for each team that cannot be listed, and no other. *)
Lemma expandTeams_posted (teams : list Team) :
  forall admins,
    posted (trace (expandTeams newClient i admins teams))
    = memberLookupFailures newClient i teams.
Proof.
  induction teams as [| team rest IH]; intros admins; [reflexivity |].
  destruct (expandTeam_completes newClient i admins team Hc) as [a1 H1].
  rewrite (expandTeams_cons _ _ _ a1) by assumption.
  cbn [trace fst]. rewrite posted_app, expandTeam_posted, IH.
  unfold memberLookupFailures. cbn [flat_map]. now rewrite app_nil_r.
Qed.

(** The members of every team are requested, whatever happened to the
    teams before it. *)
Lemma expandTeams_requests (teams : list Team) (team : Team) :
  In team teams ->
  forall admins,
    In (ListMembersInOrg (Input.org i) (slug team) 100)
       (requests (trace (expandTeams newClient i admins teams))).
Proof.
  induction teams as [| t rest IH]; intros Hin admins; [contradiction |].
  destruct (expandTeam_completes newClient i admins t Hc) as [a1 H1].
  rewrite (expandTeams_cons _ _ _ a1) by assumption.
  cbn [trace fst]. rewrite requests_app. apply in_or_app.
  destruct Hin as [-> | Hin].
  - left. apply expandTeam_requests.
  - right. now apply IH.
Qed.

Lemma memberLookupFailures_app (l1 l2 : list Team) :
  memberLookupFailures newClient i (l1 ++ l2)
  = memberLookupFailures newClient i l1
    ++ memberLookupFailures newClient i l2.
Proof. unfold memberLookupFailures. apply flat_map_app. Qed.

End TeamLoop.

(** When comments can be posted and both listings resolved, a team [T]
    whose members cannot be listed does not stop the resolution: it
    completes, the comments it posted are those owed to the teams before
    [T], the comment of [T], and those owed to the teams after [T]; the
    members of every admin team are requested; and every login listed by
    an admin team is in the admin set that is returned. *)
Lemma failing_team_does_not_stop_resolution
    (newClient : string -> Octokit) (i : Input.t)
    (ms : list Collaborator) (ts l1 l2 : list Team) (T : Team) (e : exn) :
  commentsResolve newClient i ->
  repos_listCollaborators (client newClient i) (Input.org i) (queryRepo i)
    "direct" 100 = Ok ms ->
  repos_listTeams (client newClient i) (Input.org i) (queryRepo i) = Ok ts ->
  adminTeamsOf ts = l1 ++ T :: l2 ->
  teams_listMembersInOrg (client newClient i) (Input.org i) (slug T) 100
    = Throw e ->
  exists admins,
    completion (resolveAdmins newClient i) = Ok admins
    /\ posted (trace (resolveAdmins newClient i))
       = memberLookupFailures newClient i l1
         ++ [comment_teamMemberLookupError i (name T) (message e)]
         ++ memberLookupFailures newClient i l2
    /\ (forall U,
          In U (adminTeamsOf ts) ->
          In (ListMembersInOrg (Input.org i) (slug U) 100)
             (requests (trace (resolveAdmins newClient i))))
    /\ (forall U x,
          In U (adminTeamsOf ts) -> listedBy newClient i U x ->
          In x admins).
Proof.
  intros Hc Hm Ht Hsplit He.
  destruct (expandTeams_completes newClient i (adminTeamsOf ts) Hc
              (directAdmins ms)) as [admins Ha].
  exists admins. rewrite (resolveAdmins_listed _ _ ms ts) by assumption.
  cbn [trace completion fst snd]. split; [assumption |]. split; [| split].
  - rewrite !posted_app, expandTeams_posted by assumption.
    rewrite (listDirectMembers_resolved _ _ ms),
      (listRepoTeams_resolved _ _ ts) by assumption.
    cbn [trace fst]. rewrite Hsplit, memberLookupFailures_app.
    unfold memberLookupFailures at 2. cbn [flat_map]. rewrite He.
    reflexivity.
  - intros U HU. rewrite !requests_app.
    do 2 (apply in_or_app; right). now apply expandTeams_requests.
  - intros U x HU Hl. eapply expandTeams_members; eassumption.
Qed.

Lemma memberLookupFailures_naming
    (newClient : string -> Octokit) (i : Input.t) (teams : list Team) :
  memberLookupFailures newClient i teams
  = map (fun f => comment_teamMemberLookupError i (name (fst f))
                    (message (snd f)))
        (memberFailures newClient i teams).
Proof.
  induction teams as [| team rest IH]; [reflexivity |].
  unfold memberLookupFailures, memberFailures in *. cbn [flat_map].
  rewrite map_app, IH.
  now destruct (teams_listMembersInOrg (client newClient i) (Input.org i)
                  (slug team) 100).
Qed.

Lemma memberFailures_app
    (newClient : string -> Octokit) (i : Input.t) (l1 l2 : list Team) :
  memberFailures newClient i (l1 ++ l2)
  = memberFailures newClient i l1 ++ memberFailures newClient i l2.
Proof. unfold memberFailures. apply flat_map_app. Qed.

(** No failure bears the name of [T] among teams whose namesakes of [T]
    can all be listed. *)
Lemma memberFailures_other_names
    (newClient : string -> Octokit) (i : Input.t) (T : Team)
    (teams : list Team) :
  (forall T', In T' teams -> name T' = name T ->
     exists members,
       teams_listMembersInOrg (client newClient i) (Input.org i) (slug T')
         100 = Ok members) ->
  filter (fun f => String.eqb (name (fst f)) (name T))
         (memberFailures newClient i teams) = [].
Proof.
  induction teams as [| team rest IH]; intros H; [reflexivity |].
  change (team :: rest) with ([team] ++ rest).
  rewrite memberFailures_app, filter_app,
    IH by (intros T' HT'; apply H; simpl; auto).
  rewrite app_nil_r. unfold memberFailures. cbn [flat_map].
  destruct (teams_listMembersInOrg (client newClient i) (Input.org i)
              (slug team) 100) as [ms | e] eqn:E; [reflexivity |].
  cbn [app filter fst].
  destruct (String.eqb_spec (name team) (name T)) as [En | En];
    [| reflexivity].
  destruct (H team (or_introl eq_refl) En) as [ms Hms]. congruence.
Qed.

Lemma resolveAdmins_posted
    (newClient : string -> Octokit) (i : Input.t)
    (ms : list Collaborator) (ts : list Team) :
  commentsResolve newClient i ->
  repos_listCollaborators (client newClient i) (Input.org i) (queryRepo i)
    "direct" 100 = Ok ms ->
  repos_listTeams (client newClient i) (Input.org i) (queryRepo i) = Ok ts ->
  posted (trace (resolveAdmins newClient i))
  = memberLookupFailures newClient i (adminTeamsOf ts).
Proof.
  intros Hc Hm Ht. rewrite (resolveAdmins_listed _ _ ms ts) by assumption.
  cbn [trace fst]. rewrite !posted_app, expandTeams_posted by assumption.
  now rewrite (listDirectMembers_resolved _ _ ms),
    (listRepoTeams_resolved _ _ ts) by assumption.
Qed.

(** C7, amended.  When comments can be posted and both listings resolved,
    the loop over the admin teams posts one comment for each team whose
    members cannot be listed, in listing order, and that comment is
    ["@actor\n\nThere was an error retrieving the members for "] followed
    by the name of the team, [":\n\n"] and the message of the error.  So
    when [T] fails and every other admin team of the listing that bears
    the name of [T] can be listed -- in particular when [T] is listed
    once -- exactly one of these comments is for a team named as [T].
    The failure does not stop the loop: the resolution completes, the
    members of every admin team are requested, and every login listed by
    an admin team [U] is in the admin set that is returned. *)
Theorem failing_team_is_reported_once
    (newClient : string -> Octokit) (i : Input.t)
    (ms : list Collaborator) (ts l1 l2 : list Team) (T : Team) (e : exn) :
  commentsResolve newClient i ->
  repos_listCollaborators (client newClient i) (Input.org i) (queryRepo i)
    "direct" 100 = Ok ms ->
  repos_listTeams (client newClient i) (Input.org i) (queryRepo i) = Ok ts ->
  filter (fun t => String.eqb (permission t) "admin") ts = l1 ++ T :: l2 ->
  teams_listMembersInOrg (client newClient i) (Input.org i) (slug T) 100
    = Throw e ->
  (forall T', In T' (l1 ++ l2) -> name T' = name T ->
     exists members,
       teams_listMembersInOrg (client newClient i) (Input.org i) (slug T')
         100 = Ok members) ->
  let nl := String "010"%char EmptyString in
  let naming (f : Team * exn) :=
    ("@" ++ Input.actor i ++ nl ++ nl
     ++ "There was an error retrieving the members for " ++ name (fst f)
     ++ ":" ++ nl ++ nl ++ message (snd f))%string in
  let failures := memberFailures newClient i (l1 ++ T :: l2) in
  exists admins,
    completion (resolveAdmins newClient i) = Ok admins
    /\ posted (trace (resolveAdmins newClient i)) = map naming failures
    /\ failures
       = memberFailures newClient i l1
         ++ (T, e) :: memberFailures newClient i l2
    /\ List.length
         (filter (fun f => String.eqb (name (fst f)) (name T)) failures) = 1
    /\ (forall U,
          In U (l1 ++ T :: l2) ->
          In (ListMembersInOrg (Input.org i) (slug U) 100)
             (requests (trace (resolveAdmins newClient i))))
    /\ (forall U x,
          In U (l1 ++ T :: l2) -> listedBy newClient i U x -> In x admins).
Proof.
  intros Hc Hm Ht Hsplit He Hothers nl naming failures.
  destruct (failing_team_does_not_stop_resolution newClient i ms ts l1 l2
              T e Hc Hm Ht Hsplit He)
    as (admins & Hr & _ & Hreq & Hmem).
  assert (Hfail : failures
                  = memberFailures newClient i l1
                    ++ (T, e) :: memberFailures newClient i l2).
  { unfold failures. rewrite memberFailures_app. f_equal.
    change (T :: l2) with ([T] ++ l2). rewrite memberFailures_app.
    unfold memberFailures at 1. cbn [flat_map]. now rewrite He. }
  exists admins. split; [exact Hr |]. split; [| split; [exact Hfail |]].
  - rewrite (resolveAdmins_posted _ _ ms ts) by assumption.
    change (adminTeamsOf ts)
      with (filter (fun t => String.eqb (permission t) "admin") ts).
    rewrite Hsplit. exact (memberLookupFailures_naming _ _ _).
  - split; [| split].
    + rewrite Hfail, filter_app. cbn [filter fst].
      rewrite String.eqb_refl.
      rewrite !memberFailures_other_names
        by (intros T' HT'; apply Hothers, in_or_app; auto).
      reflexivity.
    + intros U HU. apply Hreq. unfold adminTeamsOf. now rewrite Hsplit.
    + intros U x HU. apply Hmem. unfold adminTeamsOf. now rewrite Hsplit.
Qed.

(** C7, amended, at a run where [core] cannot be listed and [sre] can. *)
Lemma failing_team_is_reported_once_witness :
  let nl := String "010"%char EmptyString in
  commentsResolve Scenario.coreUnlisted Scenario.inputs
  /\ filter (fun t => String.eqb (permission t) "admin")
        [Scenario.core; Scenario.docs; Scenario.sre]
     = [] ++ Scenario.core :: [Scenario.sre]
  /\ listedBy Scenario.coreUnlisted Scenario.inputs Scenario.sre "dave"
  /\ exists admins,
       completion (resolveAdmins Scenario.coreUnlisted Scenario.inputs)
       = Ok admins
       /\ posted (trace (resolveAdmins Scenario.coreUnlisted Scenario.inputs))
          = [("@octocat" ++ nl ++ nl
              ++ "There was an error retrieving the members for Core:"
              ++ nl ++ nl ++ "Server Error")%string]
       /\ In "dave" admins.
Proof.
  intros nl.
  assert (Hl : listedBy Scenario.coreUnlisted Scenario.inputs Scenario.sre
                 "dave").
  { exists [mkMember "carol"; mkMember "dave"]. split; [reflexivity |].
    simpl; auto. }
  assert (Hothers : forall T',
             In T' ([] ++ [Scenario.sre]) ->
             name T' = name Scenario.core ->
             exists members,
               teams_listMembersInOrg
                 (client Scenario.coreUnlisted Scenario.inputs)
                 (Input.org Scenario.inputs) (slug T') 100 = Ok members).
  { intros T' [<- | []] E. discriminate E. }
  split; [intros o r n b; reflexivity |]. split; [reflexivity |].
  split; [exact Hl |].
  destruct (failing_team_is_reported_once Scenario.coreUnlisted
              Scenario.inputs [Scenario.alice; Scenario.bob]
              [Scenario.core; Scenario.docs; Scenario.sre] []
              [Scenario.sre] Scenario.core Scenario.serverError
              (fun o r n b => eq_refl) eq_refl eq_refl eq_refl eq_refl
              Hothers)
    as (admins & Hr & Hp & _ & _ & _ & Hmem).
  exists admins. split; [exact Hr |]. split; [exact Hp |].
  apply (Hmem Scenario.sre "dave"); [simpl; auto | exact Hl].
Defined.

(** C7 as stated fails: when the team listing names [core] twice and
    [core] cannot be listed, the comment naming Core is posted twice,
    while the members of [sre] are in the admin set. *)
Lemma repeated_failing_team_is_reported_twice :
  let nl := String "010"%char EmptyString in
  let naming_core :=
    ("@octocat" ++ nl ++ nl
     ++ "There was an error retrieving the members for Core:"
     ++ nl ++ nl ++ "Server Error")%string in
  filter (fun t => String.eqb (permission t) "admin")
    [Scenario.core; Scenario.sre; Scenario.core]
  = [Scenario.core; Scenario.sre; Scenario.core]
  /\ posted (trace (main Scenario.coreListedTwice Scenario.inputs))
     = [naming_core; naming_core;
        successListing Scenario.inputs Scenario.profiles
          ["alice"; "carol"; "dave"]]
  /\ count_occ string_dec
       (posted (trace (main Scenario.coreListedTwice Scenario.inputs)))
       naming_core = 2
  /\ completion (resolveAdmins Scenario.coreListedTwice Scenario.inputs)
     = Ok ["alice"; "carol"; "dave"].
Proof. repeat split. Qed.



(** ** The success listing *)

Lemma concat_empty_cons (x : string) (xs : list string) :
  String.concat "" (x :: xs) = (x ++ String.concat "" xs)%string.
Proof.
  destruct xs as [| y ys]; simpl; [now rewrite append_nil_r | reflexivity].
Qed.

Lemma posted_profileEvents (admins : list string) :
  posted (profileEvents admins) = [].
Proof. induction admins as [| a rest IH]; simpl; auto. Qed.

Section Listing.

Variable newClient : string -> Octokit.
Variable i : Input.t.
Variable profile : string -> User.

Lemma appendEmails_resolved (admins : list string) :
  (forall a, In a admins ->
     users_getByUsername (client newClient i) a = Ok (profile a)) ->
  forall body,
    appendEmails newClient i body admins
    = (profileEvents admins,
       Ok (body
           ++ String.concat "" (map (fun a => emailLine (profile a)) admins))
         %string).
Proof.
  induction admins as [| a rest IH]; intros Hp body.
  - simpl. now rewrite append_nil_r.
  - cbn [appendEmails]. rewrite (Hp a) by (simpl; auto). step.
    rewrite IH by (intros b Hb; apply Hp; simpl; auto).
    cbn [map]. rewrite concat_empty_cons, append_assoc. reflexivity.
Qed.

Lemma reportAdmins_listing (admins : list string) :
  commentsResolve newClient i ->
  admins <> [] ->
  (forall a, In a admins ->
     users_getByUsername (client newClient i) a = Ok (profile a)) ->
  reportAdmins newClient i admins
  = (profileEvents admins
     ++ commentEvents i (successListing i profile admins),
     Ok tt).
Proof.
  intros Hc Hne Hp. unfold reportAdmins.
  destruct admins as [| a rest]; [contradiction |].
  cbn [List.length Nat.eqb]. rewrite appendEmails_resolved by assumption.
  step. rewrite sendComment_resolves by assumption. reflexivity.
Qed.

End Listing.

(** In a run that reaches the success listing, the admin set is the
    direct admins followed by logins that are new and listed by an admin
    team; for every split of the admin teams into earlier and later ones,
    the set reached after the earlier teams holds every login they list
    and is a prefix of the final set, the rest being logins first listed
    by a later team; and the last comment posted is the header followed
    by one line for each admin, in the order of the set. *)
Lemma resolved_set_and_listing
    (newClient : string -> Octokit) (i : Input.t)
    (ms : list Collaborator) (ts : list Team) (admins : list string)
    (profile : string -> User) :
  commentsResolve newClient i ->
  notRejected404 newClient i ->
  repos_listCollaborators (client newClient i) (Input.org i) (queryRepo i)
    "direct" 100 = Ok ms ->
  repos_listTeams (client newClient i) (Input.org i) (queryRepo i) = Ok ts ->
  completion (resolveAdmins newClient i) = Ok admins ->
  admins <> [] ->
  (forall a, In a admins ->
     users_getByUsername (client newClient i) a = Ok (profile a)) ->
  (exists ext,
     admins = directAdmins ms ++ ext
     /\ forall x, In x ext ->
          ~ In x (directAdmins ms)
          /\ exists team,
               In team (adminTeamsOf ts) /\ listedBy newClient i team x)
  /\ (forall ts1 ts2,
        adminTeamsOf ts = ts1 ++ ts2 ->
        exists a1 ext2,
          completion (expandTeams newClient i (directAdmins ms) ts1) = Ok a1
          /\ admins = a1 ++ ext2
          /\ (forall team x,
                In team ts1 -> listedBy newClient i team x -> In x a1)
          /\ (forall x, In x ext2 ->
                ~ In x a1
                /\ exists team, In team ts2 /\ listedBy newClient i team x))
  /\ exists earlier,
       posted (trace (main newClient i))
       = earlier ++ [successListing i profile admins].
Proof.
  intros Hc Hn Hm Ht Hr Hne Hp.
  pose proof Hr as He.
  rewrite (resolveAdmins_listed _ _ ms ts) in He by assumption.
  cbn [completion snd] in He.
  split; [| split].
  - apply expandTeams_extends in He as (ext & -> & _ & Hext). eauto.
  - intros ts1 ts2 Hsplit. rewrite Hsplit in He.
    apply expandTeams_app_inv in He as (a1 & H1 & H2).
    pose proof (expandTeams_members _ _ _ _ _ H1) as Hmem.
    apply expandTeams_extends in H2 as (ext2 & -> & _ & Hext).
    exists a1, ext2. auto.
  - exists (posted (trace (verifyRepository newClient i))
            ++ posted (trace (resolveAdmins newClient i))).
    rewrite main_continues by assumption. cbn [trace fst].
    unfold resolveAndReport. rewrite (bind_ok _ _ admins) by assumption.
    cbn [fst].
    rewrite (bind_ok _ _ tt)
      by now rewrite (reportAdmins_listing _ _ profile).
    rewrite (reportAdmins_listing _ _ profile) by assumption.
    cbn [trace fst]. rewrite closeIssueIfRequested_log. cbn [fst].
    rewrite !posted_app, posted_profileEvents.
    rewrite <- (app_assoc (posted (trace (verifyRepository newClient i)))).
    do 2 f_equal. cbn [trace fst].
    destruct (closeIssue i); reflexivity.
Qed.

(** C6.  In a run that reaches the success listing, the admin set begins
    with the logins of the collaborators whose [permissions.admin] is
    true, in the order of the collaborator listing, and goes on with
    logins that are not among them and that a team of permission
    ['admin'] lists.  For every split of the admin teams into earlier and
    later ones, the set reached after the earlier teams holds those
    logins and every login the earlier teams list, and is a prefix of the
    final set, the rest being logins first listed by a later team.  The
    last comment posted is the header followed, for each admin in the
    order of the set, by ["- "], the e-mail of the profile ([null] when
    there is none) and a line feed. *)
Theorem admin_set_order_and_listing
    (newClient : string -> Octokit) (i : Input.t)
    (ms : list Collaborator) (ts : list Team) (admins : list string)
    (profile : string -> User) :
  commentsResolve newClient i ->
  notRejected404 newClient i ->
  repos_listCollaborators (client newClient i) (Input.org i) (queryRepo i)
    "direct" 100 = Ok ms ->
  repos_listTeams (client newClient i) (Input.org i) (queryRepo i) = Ok ts ->
  completion (resolveAdmins newClient i) = Ok admins ->
  admins <> [] ->
  (forall a, In a admins ->
     users_getByUsername (client newClient i) a = Ok (profile a)) ->
  let nl := String "010"%char EmptyString in
  let direct := map login (filter permissions_admin ms) in
  let line (a : string) :=
    ("- " ++ match email (profile a) with
             | Some address => address
             | None => "null"
             end ++ nl)%string in
  (exists ext,
     admins = direct ++ ext
     /\ forall x, In x ext ->
          ~ In x direct
          /\ exists team,
               In team ts /\ permission team = "admin"
               /\ listedBy newClient i team x)
  /\ (forall ts1 ts2,
        filter (fun t => String.eqb (permission t) "admin") ts
        = ts1 ++ ts2 ->
        exists a1 ext2,
          completion (expandTeams newClient i direct ts1) = Ok a1
          /\ admins = a1 ++ ext2
          /\ (forall x, In x direct -> In x a1)
          /\ (forall team x,
                In team ts1 -> listedBy newClient i team x -> In x a1)
          /\ (forall x, In x ext2 ->
                ~ In x a1
                /\ exists team, In team ts2 /\ listedBy newClient i team x))
  /\ exists earlier,
       posted (trace (main newClient i))
       = earlier
         ++ [(("The following users have been identified as having `administrator` access to https://github.com/"
               ++ Input.org i ++ "/" ++ queryRepo i ++ ":" ++ nl ++ nl)
              ++ String.concat "" (map line admins))%string].
Proof.
  intros Hc Hn Hm Ht Hr Hne Hp nl direct line.
  destruct (resolved_set_and_listing newClient i ms ts admins profile
              Hc Hn Hm Ht Hr Hne Hp) as (Hfront & Hsplit & Hlast).
  split; [| split].
  - destruct Hfront as (ext & E & Hext). exists ext.
    split; [exact E |]. intros x Hx.
    destruct (Hext x Hx) as (Hnew & team & Hin & Hl).
    split; [exact Hnew |].
    apply filter_In in Hin as [Hin Hperm].
    apply String.eqb_eq in Hperm. eauto.
  - intros ts1 ts2 E.
    destruct (Hsplit ts1 ts2 E) as (a1 & ext2 & H1 & E2 & Hmem & Hext).
    exists a1, ext2. split; [exact H1 |]. split; [exact E2 |].
    split; [| split; [exact Hmem | exact Hext]].
    intros x Hx. exact (expandTeams_incl _ _ _ _ _ H1 x Hx).
  - exact Hlast.
Qed.

(** C6, at a run where [alice] is a direct admin whom no team lists, two
    admin teams share [dave], and [dave] and [erin] publish no e-mail. *)
Lemma admin_set_order_and_listing_witness :
  let nl := String "010"%char EmptyString in
  commentsResolve Scenario.ordered Scenario.inputs
  /\ notRejected404 Scenario.ordered Scenario.inputs
  /\ map login (filter permissions_admin [Scenario.alice; Scenario.bob])
     = ["alice"]
  /\ completion (resolveAdmins Scenario.ordered Scenario.inputs)
     = Ok ["alice"; "carol"; "dave"; "erin"]
  /\ (exists ext,
        ["alice"; "carol"; "dave"; "erin"] = ["alice"] ++ ext
        /\ forall x, In x ext ->
             ~ In x ["alice"]
             /\ exists team,
                  In team [Scenario.core; Scenario.docs; Scenario.sre]
                  /\ permission team = "admin"
                  /\ listedBy Scenario.ordered Scenario.inputs team x)
  /\ (exists a1 ext2,
        completion (expandTeams Scenario.ordered Scenario.inputs ["alice"]
                      [Scenario.core]) = Ok a1
        /\ ["alice"; "carol"; "dave"; "erin"] = a1 ++ ext2
        /\ (forall x, In x ["alice"] -> In x a1)
        /\ (forall team x,
              In team [Scenario.core] ->
              listedBy Scenario.ordered Scenario.inputs team x -> In x a1)
        /\ (forall x, In x ext2 ->
              ~ In x a1
              /\ exists team,
                   In team [Scenario.sre]
                   /\ listedBy Scenario.ordered Scenario.inputs team x))
  /\ exists earlier,
       posted (trace (main Scenario.ordered Scenario.inputs))
       = earlier
         ++ [("The following users have been identified as having `administrator` access to https://github.com/acme/widgets:"
              ++ nl ++ nl
              ++ "- alice@example.com" ++ nl
              ++ "- carol@example.com" ++ nl
              ++ "- null" ++ nl
              ++ "- null" ++ nl)%string].
Proof.
  intros nl.
  assert (Hn : notRejected404 Scenario.ordered Scenario.inputs)
    by (intros e; discriminate).
  assert (Hne : ["alice"; "carol"; "dave"; "erin"] <> @nil string)
    by discriminate.
  split; [intros o r n b; reflexivity |]. split; [exact Hn |].
  split; [reflexivity |]. split; [reflexivity |].
  destruct (admin_set_order_and_listing Scenario.ordered Scenario.inputs
              [Scenario.alice; Scenario.bob]
              [Scenario.core; Scenario.docs; Scenario.sre]
              ["alice"; "carol"; "dave"; "erin"] Scenario.profiles
              (fun o r n b => eq_refl) Hn eq_refl eq_refl eq_refl Hne
              (fun a _ => eq_refl))
    as (Hfront & Hsplit & Hlast).
  split; [exact Hfront |].
  split; [exact (Hsplit [Scenario.core] [Scenario.sre] eq_refl) |].
  exact Hlast.
Defined.

(** * Further properties of the action *)

(** ** The paths that end a run early *)

(** X1.  When the existence check rejects with status 404, [main] sends
    the RepoNotFound comment and nothing else: no listing, no profile and
    no issue update is requested, whatever [close_issue] says; the run is
    not marked failed and completes as the comment request does. *)
Theorem repo_not_found_halts
    (newClient : string -> Octokit) (i : Input.t) (e : exn) :
  repos_get (client newClient i) (Input.org i) (queryRepo i) = Throw e ->
  status_is e 404 = true ->
  requests (trace (main newClient i))
  = [ReposGet (Input.org i) (queryRepo i);
     CreateComment (Input.issue_org i) (Input.repo i) (Input.issue_number i)
       (comment_repoNotFound i)]
  /\ markedFailed (trace (main newClient i)) = false
  /\ completion (main newClient i)
     = issues_createComment (commentClient newClient i) (Input.issue_org i)
         (Input.repo i) (Input.issue_number i) (comment_repoNotFound i).
Proof.
  intros He H404. unfold main, verifyRepository, sendComment.
  rewrite He. step. rewrite H404. step.
  destruct (issues_createComment _ _ _ _ _) as [[] | e']; repeat split.
Qed.

(** X1, at a missing repository whose issue was to be closed. *)
Lemma repo_not_found_halts_witness :
  closeIssue Scenario.inputs = true
  /\ requests (trace (main Scenario.repoMissing Scenario.inputs))
     = [ReposGet "acme" "widgets";
        CreateComment "ops" "requests" "7"
          (comment_repoNotFound Scenario.inputs)]
  /\ markedFailed (trace (main Scenario.repoMissing Scenario.inputs)) = false
  /\ completion (main Scenario.repoMissing Scenario.inputs) = Ok tt.
Proof.
  split; [reflexivity |].
  apply (repo_not_found_halts Scenario.repoMissing Scenario.inputs
           Scenario.notFound eq_refl eq_refl).
Defined.

(** X2.  When the collaborator listing rejects, the handler of lines
    80-83 comments and marks the run failed, and line 85 then calls
    [filter] on [undefined]: [main] throws a TypeError right after the
    comment, without listing the teams and without updating the issue. *)
Theorem collaborator_failure_throws
    (newClient : string -> Octokit) (i : Input.t) (e : exn) :
  commentsResolve newClient i ->
  notRejected404 newClient i ->
  repos_listCollaborators (client newClient i) (Input.org i) (queryRepo i)
    "direct" 100 = Throw e ->
  completion (main newClient i) = Throw typeError_filter
  /\ requests (trace (main newClient i))
     = requests (trace (verifyRepository newClient i))
       ++ [ListCollaborators (Input.org i) (queryRepo i) "direct" 100;
           CreateComment (Input.issue_org i) (Input.repo i)
             (Input.issue_number i)
             (comment_collaboratorLookupError i (message e))]
  /\ In (SetFailed (message e)) (trace (main newClient i)).
Proof.
  intros Hc Hn Hm. rewrite main_continues by assumption.
  unfold resolveAndReport, resolveAdmins.
  rewrite (listDirectMembers_error _ _ e) by assumption.
  step. cbn [filterAdmins]. step. rewrite requests_app.
  repeat split. apply in_or_app. right. simpl. auto 10.
Qed.

(** X3.  When the team listing rejects after the collaborators were
    listed, the handler of lines 94-97 comments and marks the run failed,
    and line 99 then calls [filter] on [undefined]: [main] throws a
    TypeError, no team is expanded, no profile is fetched and the issue
    is not updated. *)
Theorem team_listing_failure_throws
    (newClient : string -> Octokit) (i : Input.t)
    (ms : list Collaborator) (e : exn) :
  commentsResolve newClient i ->
  notRejected404 newClient i ->
  repos_listCollaborators (client newClient i) (Input.org i) (queryRepo i)
    "direct" 100 = Ok ms ->
  repos_listTeams (client newClient i) (Input.org i) (queryRepo i)
    = Throw e ->
  completion (main newClient i) = Throw typeError_filter
  /\ requests (trace (main newClient i))
     = requests (trace (verifyRepository newClient i))
       ++ [ListCollaborators (Input.org i) (queryRepo i) "direct" 100;
           ListTeams (Input.org i) (queryRepo i);
           CreateComment (Input.issue_org i) (Input.repo i)
             (Input.issue_number i)
             (comment_teamLookupError i (message e))]
  /\ In (SetFailed (message e)) (trace (main newClient i)).
Proof.
  intros Hc Hn Hm Ht. rewrite main_continues by assumption.
  unfold resolveAndReport, resolveAdmins.
  rewrite (listDirectMembers_resolved _ _ ms),
    (listRepoTeams_error _ _ e) by assumption.
  step. cbn [filterAdmins filterAdminTeams]. step. rewrite requests_app.
  repeat split. apply in_or_app. right. simpl. auto 10.
Qed.

(** X2, at a collaborator listing that rejects with status 500. *)
Lemma collaborator_failure_throws_witness :
  completion
    (main (Scenario.world (Ok tt) (Throw Scenario.serverError) (Ok [])
             Scenario.coreMembers (fun u => Ok (Scenario.profiles u)))
          Scenario.inputs)
  = Throw typeError_filter.
Proof.
  apply (collaborator_failure_throws
           (Scenario.world (Ok tt) (Throw Scenario.serverError) (Ok [])
              Scenario.coreMembers (fun u => Ok (Scenario.profiles u)))
           Scenario.inputs Scenario.serverError
           (fun o r n b => eq_refl) (fun e => ltac:(discriminate)) eq_refl).
Defined.

(** X3, at a team listing that rejects with status 500. *)
Lemma team_listing_failure_throws_witness :
  completion
    (main (Scenario.world (Ok tt) (Ok [Scenario.alice])
             (Throw Scenario.serverError)
             Scenario.coreMembers (fun u => Ok (Scenario.profiles u)))
          Scenario.inputs)
  = Throw typeError_filter.
Proof.
  apply (team_listing_failure_throws
           (Scenario.world (Ok tt) (Ok [Scenario.alice])
              (Throw Scenario.serverError)
              Scenario.coreMembers (fun u => Ok (Scenario.profiles u)))
           Scenario.inputs [Scenario.alice] Scenario.serverError
           (fun o r n b => eq_refl) (fun e => ltac:(discriminate))
           eq_refl eq_refl).
Defined.

(** ** The report *)

Section Report.

Variable newClient : string -> Octokit.
Variable i : Input.t.

(** The loop of lines 124-130 stops at the first profile that cannot be
    fetched. *)
Lemma appendEmails_first_failure (profile : string -> User)
    (before after : list string) (admin : string) (e : exn) :
  (forall a, In a before ->
     users_getByUsername (client newClient i) a = Ok (profile a)) ->
  users_getByUsername (client newClient i) admin = Throw e ->
  forall body,
    appendEmails newClient i body (before ++ admin :: after)
    = (profileEvents before
       ++ [Info ("Retrieving email for " ++ admin);
           Call (GetByUsername admin) false],
       Throw e).
Proof.
  intros Hp He. induction before as [| a rest IH]; intros body.
  - cbn [app appendEmails]. rewrite He. reflexivity.
  - cbn [app appendEmails]. rewrite (Hp a) by (simpl; auto). step.
    rewrite IH by (intros b Hb; apply Hp; simpl; auto). reflexivity.
Qed.

Lemma reportAdmins_nonempty (admins : list string) :
  admins <> [] ->
  reportAdmins newClient i admins
  = bind (appendEmails newClient i (comment_successHeader i) admins)
      (fun body =>
         sendComment (commentClient newClient i) (Input.issue_org i)
           (Input.repo i) (Input.issue_number i) body).
Proof.
  intros Hne. unfold reportAdmins.
  destruct admins; [contradiction | reflexivity].
Qed.

End Report.

(** X4.  When the profile of an admin cannot be fetched, [main] throws
    that error right after the request: the profiles of the admins that
    come later are not requested, no listing is posted, and the issue is
    not updated. *)
Theorem first_profile_failure_stops_run
    (newClient : string -> Octokit) (i : Input.t)
    (profile : string -> User) (before after : list string)
    (admin : string) (e : exn) :
  commentsResolve newClient i ->
  notRejected404 newClient i ->
  completion (resolveAdmins newClient i) = Ok (before ++ admin :: after) ->
  (forall a, In a before ->
     users_getByUsername (client newClient i) a = Ok (profile a)) ->
  users_getByUsername (client newClient i) admin = Throw e ->
  main newClient i
  = (trace (verifyRepository newClient i)
     ++ trace (resolveAdmins newClient i)
     ++ profileEvents before
     ++ [Info ("Retrieving email for " ++ admin);
         Call (GetByUsername admin) false],
     Throw e).
Proof.
  intros Hc Hn Hr Hp He. rewrite main_continues by assumption.
  unfold resolveAndReport. rewrite (bind_ok _ _ _ Hr). cbn [trace fst snd].
  rewrite reportAdmins_nonempty by (now destruct before).
  rewrite (appendEmails_first_failure _ _ profile _ _ _ e) by assumption.
  step. reflexivity.
Qed.

(** X4, at a run where the second of three profiles cannot be fetched. *)
Lemma first_profile_failure_stops_run_witness :
  let world :=
    Scenario.world (Ok tt) (Ok [Scenario.alice; Scenario.bob])
      (Ok [Scenario.core; Scenario.docs; Scenario.sre])
      Scenario.coreMembers
      (fun u => if String.eqb u "carol" then Throw Scenario.serverError
                else Ok (Scenario.profiles u)) in
  completion (resolveAdmins world Scenario.inputs)
  = Ok (["alice"] ++ "carol" :: ["dave"])
  /\ completion (main world Scenario.inputs) = Throw Scenario.serverError
  /\ posted (trace (main world Scenario.inputs)) = []
  /\ existsb isIssuesUpdate (trace (main world Scenario.inputs)) = false.
Proof.
  intros world. split; [reflexivity |].
  assert (Hn : notRejected404 world Scenario.inputs)
    by (intros e; discriminate).
  assert (Hp : forall a, In a ["alice"] ->
                 users_getByUsername (client world Scenario.inputs) a
                 = Ok (Scenario.profiles a)).
  { intros a [<- | []]. reflexivity. }
  rewrite (first_profile_failure_stops_run world Scenario.inputs
             Scenario.profiles ["alice"] ["dave"] "carol"
             Scenario.serverError (fun o r n b => eq_refl) Hn eq_refl Hp
             eq_refl).
  repeat split.
Defined.

(** X8.  Once the admin set is resolved and the report is sent, the issue
    update is requested whenever [close_issue] is ['true'], whether the
    set is empty or not and whether the run was marked failed on the way
    or not; the update is the last event and [main] completes as it
    does. *)
Theorem issue_is_closed_after_any_report
    (newClient : string -> Octokit) (i : Input.t)
    (admins : list string) (profile : string -> User) :
  commentsResolve newClient i ->
  notRejected404 newClient i ->
  completion (resolveAdmins newClient i) = Ok admins ->
  (forall a, In a admins ->
     users_getByUsername (client newClient i) a = Ok (profile a)) ->
  closeIssue i = true ->
  (exists t,
     trace (main newClient i)
     = t ++ [closeEvent i
               (isOk (issues_update (commentClient newClient i)
                        (Input.issue_org i) (Input.repo i)
                        (Input.issue_number i) "closed"))])
  /\ completion (main newClient i)
     = issues_update (commentClient newClient i) (Input.issue_org i)
         (Input.repo i) (Input.issue_number i) "closed".
Proof.
  intros Hc Hn Hr Hp Hclose. rewrite main_continues by assumption.
  unfold resolveAndReport. rewrite (bind_ok _ _ _ Hr). cbn [trace fst snd].
  assert (Hrep : exists t,
             reportAdmins newClient i admins = (t, Ok tt)).
  { destruct admins as [| a rest].
    - rewrite reportAdmins_none by assumption. eauto.
    - rewrite (reportAdmins_listing _ _ profile) by (auto; discriminate).
      eauto. }
  destruct Hrep as [t ->]. step.
  rewrite closeIssueIfRequested_log, Hclose. cbn [fst snd]. split.
  - exists (trace (verifyRepository newClient i)
            ++ trace (resolveAdmins newClient i) ++ t).
    now rewrite <- !app_assoc.
  - reflexivity.
Qed.

(** X8, at a run that was marked failed for a team and still lists the
    admins and closes the issue. *)
Lemma issue_is_closed_after_any_report_witness :
  markedFailed (trace (main Scenario.coreUnlisted Scenario.inputs)) = true
  /\ (exists t,
        trace (main Scenario.coreUnlisted Scenario.inputs)
        = t ++ [closeEvent Scenario.inputs true])
  /\ completion (main Scenario.coreUnlisted Scenario.inputs) = Ok tt.
Proof.
  split; [reflexivity |].
  assert (Hn : notRejected404 Scenario.coreUnlisted Scenario.inputs)
    by (intros e; discriminate).
  apply (issue_is_closed_after_any_report Scenario.coreUnlisted
           Scenario.inputs ["alice"; "carol"; "dave"] Scenario.profiles
           (fun o r n b => eq_refl) Hn eq_refl (fun a _ => eq_refl)
           eq_refl).
Defined.

(** X7.  The issue is updated only when [close_issue] is exactly the
    string ['true']: for any other value no [issues.update] request is
    ever sent. *)
Theorem issue_untouched_unless_true
    (newClient : string -> Octokit) (i : Input.t) :
  Input.close_issue i <> "true" ->
  Forall (fun ev => isIssuesUpdate ev = false) (trace (main newClient i)).
Proof.
  intros Hne.
  assert (Hclose : closeIssue i = false).
  { unfold closeIssue. now apply String.eqb_neq. }
  assert (Hblock : forall t,
             Forall (blockEvent i) t ->
             Forall (fun ev => isIssuesUpdate ev = false) t).
  { intros t Ht. eapply Forall_impl; [| exact Ht].
    intros ev. apply blockEvent_not_update. }
  unfold main.
  apply Forall_trace_bind; [apply Hblock, verifyRepository_events |].
  intros [] _; [constructor |]. unfold resolveAndReport.
  apply Forall_trace_bind; [apply Hblock, resolveAdmins_events |].
  intros admins _.
  apply Forall_trace_bind; [apply Hblock, reportAdmins_events |].
  intros _ _. unfold closeIssueIfRequested. rewrite Hclose. constructor.
Qed.

(** X7, at a run whose [close_issue] is ['True']. *)
Lemma issue_untouched_unless_true_witness :
  let i := Input.mk "octocat" "admin-token" "/admins widgets" "True" "7"
             "ops" "acme" "requests" "comment-token" in
  Forall (fun ev => isIssuesUpdate ev = false)
         (trace (main Scenario.healthy i)).
Proof.
  intros i. apply (issue_untouched_unless_true Scenario.healthy i).
  discriminate.
Defined.

(** ** A run in which every lookup resolves *)

Lemma requests_memberRequests (i : Input.t) (teams : list Team) :
  requests (memberRequests i teams)
  = map (fun team => ListMembersInOrg (Input.org i) (slug team) 100) teams.
Proof.
  induction teams as [| t rest IH]; [reflexivity |].
  simpl. now rewrite <- IH.
Qed.

Lemma requests_profileEvents (admins : list string) :
  requests (profileEvents admins) = map GetByUsername admins.
Proof.
  induction admins as [| a rest IH]; [reflexivity |].
  simpl. now rewrite <- IH.
Qed.

Lemma markedFailed_memberRequests (i : Input.t) (teams : list Team) :
  markedFailed (memberRequests i teams) = false.
Proof. induction teams as [| t rest IH]; [reflexivity | exact IH]. Qed.

Lemma markedFailed_profileEvents (admins : list string) :
  markedFailed (profileEvents admins) = false.
Proof. induction admins as [| a rest IH]; [reflexivity | exact IH]. Qed.

Lemma posted_memberRequests (i : Input.t) (teams : list Team) :
  posted (memberRequests i teams) = [].
Proof. induction teams as [| t rest IH]; [reflexivity | exact IH]. Qed.

Lemma expandTeams_all_listed
    (newClient : string -> Octokit) (i : Input.t)
    (membersOf : Team -> list Member) (teams : list Team) :
  (forall team, In team teams ->
     teams_listMembersInOrg (client newClient i) (Input.org i) (slug team)
       100 = Ok (membersOf team)) ->
  forall admins,
    expandTeams newClient i admins teams
    = (memberRequests i teams, Ok (mergedAdmins membersOf admins teams)).
Proof.
  induction teams as [| t rest IH]; intros Hl admins; [reflexivity |].
  rewrite (expandTeams_cons _ _ _ (pushMembers admins (membersOf t)))
    by (rewrite (expandTeam_resolved _ _ _ _ (membersOf t));
        [reflexivity | apply Hl; simpl; auto]).
  rewrite (expandTeam_resolved _ _ _ _ (membersOf t))
    by (apply Hl; simpl; auto).
  rewrite IH by (intros team Hin; apply Hl; simpl; auto).
  reflexivity.
Qed.

(** X6.  When the existence check, both listings, the members of every
    admin team and the profile of every admin resolve, and the admin set
    is not empty, [main] sends exactly these requests, in this order: the
    existence check, the collaborator listing, the team listing, the
    members of each admin team in listing order, the profile of each
    admin in set order, one comment with the listing and, when
    [close_issue] is ['true'], the issue update.  That comment is the only
    one and the run is not marked failed. *)
Theorem requests_of_a_clean_run
    (newClient : string -> Octokit) (i : Input.t)
    (ms : list Collaborator) (ts : list Team)
    (membersOf : Team -> list Member) (profile : string -> User) :
  commentsResolve newClient i ->
  repos_get (client newClient i) (Input.org i) (queryRepo i) = Ok tt ->
  repos_listCollaborators (client newClient i) (Input.org i) (queryRepo i)
    "direct" 100 = Ok ms ->
  repos_listTeams (client newClient i) (Input.org i) (queryRepo i) = Ok ts ->
  (forall team, In team (adminTeamsOf ts) ->
     teams_listMembersInOrg (client newClient i) (Input.org i) (slug team)
       100 = Ok (membersOf team)) ->
  mergedAdmins membersOf (directAdmins ms) (adminTeamsOf ts) <> [] ->
  (forall a,
     In a (mergedAdmins membersOf (directAdmins ms) (adminTeamsOf ts)) ->
     users_getByUsername (client newClient i) a = Ok (profile a)) ->
  let admins := mergedAdmins membersOf (directAdmins ms) (adminTeamsOf ts) in
  requests (trace (main newClient i))
  = [ReposGet (Input.org i) (queryRepo i);
     ListCollaborators (Input.org i) (queryRepo i) "direct" 100;
     ListTeams (Input.org i) (queryRepo i)]
    ++ map (fun team => ListMembersInOrg (Input.org i) (slug team) 100)
         (adminTeamsOf ts)
    ++ map GetByUsername admins
    ++ [CreateComment (Input.issue_org i) (Input.repo i)
          (Input.issue_number i) (successListing i profile admins)]
    ++ (if closeIssue i
        then [IssuesUpdate (Input.issue_org i) (Input.repo i)
                (Input.issue_number i) "closed"]
        else [])
  /\ posted (trace (main newClient i)) = [successListing i profile admins]
  /\ markedFailed (trace (main newClient i)) = false.
Proof.
  intros Hc Hg Hm Ht Hl Hne Hp admins.
  assert (Hr : resolveAdmins newClient i
               = ([Info ("Retrieving direct admins for " ++ Input.org i
                         ++ "/" ++ queryRepo i);
                   Call (ListCollaborators (Input.org i) (queryRepo i)
                           "direct" 100) true;
                   Info ("Retrieving teams for " ++ Input.org i ++ "/"
                         ++ Input.repo i);
                   Call (ListTeams (Input.org i) (queryRepo i)) true]
                  ++ memberRequests i (adminTeamsOf ts),
                  Ok admins)).
  { rewrite (resolveAdmins_listed _ _ ms ts) by assumption.
    rewrite (listDirectMembers_resolved _ _ ms),
      (listRepoTeams_resolved _ _ ts) by assumption.
    now rewrite (expandTeams_all_listed _ _ membersOf). }
  assert (Htr : trace (main newClient i)
                = [Info ("Verifying repository " ++ Input.org i ++ "/"
                         ++ queryRepo i ++ " exists");
                   Call (ReposGet (Input.org i) (queryRepo i)) true;
                   Info ("Retrieving direct admins for " ++ Input.org i
                         ++ "/" ++ queryRepo i);
                   Call (ListCollaborators (Input.org i) (queryRepo i)
                           "direct" 100) true;
                   Info ("Retrieving teams for " ++ Input.org i ++ "/"
                         ++ Input.repo i);
                   Call (ListTeams (Input.org i) (queryRepo i)) true]
                  ++ memberRequests i (adminTeamsOf ts)
                  ++ profileEvents admins
                  ++ commentEvents i (successListing i profile admins)
                  ++ (if closeIssue i
                      then [closeEvent i
                              (isOk (issues_update
                                       (commentClient newClient i)
                                       (Input.issue_org i) (Input.repo i)
                                       (Input.issue_number i) "closed"))]
                      else [])).
  { unfold main. rewrite verifyRepository_resolved by assumption. step.
    unfold resolveAndReport. rewrite Hr. step.
    rewrite (reportAdmins_listing _ _ profile) by assumption. step.
    rewrite closeIssueIfRequested_log. cbn [fst].
    now rewrite <- !app_assoc. }
  rewrite Htr.
  rewrite !requests_app, !posted_app, !markedFailed_app,
    requests_memberRequests, requests_profileEvents,
    posted_memberRequests, posted_profileEvents,
    markedFailed_memberRequests, markedFailed_profileEvents.
  destruct (closeIssue i); repeat split.
Qed.

(** X6, at a run with one direct admin and two admin teams. *)
Lemma requests_of_a_clean_run_witness :
  let membersOf (team : Team) :=
    if String.eqb (slug team) "core"
    then [mkMember "alice"; mkMember "carol"]
    else [mkMember "carol"; mkMember "dave"] in
  mergedAdmins membersOf (directAdmins [Scenario.alice; Scenario.bob])
    (adminTeamsOf [Scenario.core; Scenario.docs; Scenario.sre])
  = ["alice"; "carol"; "dave"]
  /\ requests (trace (main Scenario.healthy Scenario.inputs))
     = [ReposGet "acme" "widgets";
        ListCollaborators "acme" "widgets" "direct" 100;
        ListTeams "acme" "widgets";
        ListMembersInOrg "acme" "core" 100;
        ListMembersInOrg "acme" "sre" 100;
        GetByUsername "alice"; GetByUsername "carol"; GetByUsername "dave";
        CreateComment "ops" "requests" "7"
          (successListing Scenario.inputs Scenario.profiles
             ["alice"; "carol"; "dave"]);
        IssuesUpdate "ops" "requests" "7" "closed"]
  /\ markedFailed (trace (main Scenario.healthy Scenario.inputs)) = false.
Proof.
  intros membersOf. split; [reflexivity |].
  assert (Hl : forall team,
             In team (adminTeamsOf
                        [Scenario.core; Scenario.docs; Scenario.sre]) ->
             teams_listMembersInOrg
               (client Scenario.healthy Scenario.inputs) "acme" (slug team)
               100 = Ok (membersOf team)).
  { intros team [<- | [<- | []]]; reflexivity. }
  destruct (requests_of_a_clean_run Scenario.healthy Scenario.inputs
              [Scenario.alice; Scenario.bob]
              [Scenario.core; Scenario.docs; Scenario.sre]
              membersOf Scenario.profiles
              (fun o r n b => eq_refl) eq_refl eq_refl eq_refl Hl
              ltac:(discriminate) (fun a _ => eq_refl))
    as (Hreq & _ & Hf).
  split; [exact Hreq | exact Hf].
Defined.

(** ** What [main] never does *)

(** *** A rejected comment ends the run *)

Lemma rejectedCommentIsLast_clean (t : list event) :
  existsb isRejectedComment t = false -> rejectedCommentIsLast t = true.
Proof.
  induction t as [| ev t IH]; [reflexivity |]. simpl.
  destruct (isRejectedComment ev); [discriminate | exact IH].
Qed.

Lemma rejectedCommentIsLast_app (t1 t2 : list event) :
  existsb isRejectedComment t1 = false ->
  rejectedCommentIsLast (t1 ++ t2) = rejectedCommentIsLast t2.
Proof.
  induction t1 as [| ev t IH]; [reflexivity |]. simpl.
  destruct (isRejectedComment ev); [discriminate | exact IH].
Qed.

Lemma endsAtRejectedComment_clean {A} (m : M A) :
  existsb isRejectedComment (trace m) = false -> endsAtRejectedComment m.
Proof.
  intros H. split; [now apply rejectedCommentIsLast_clean | congruence].
Qed.

Lemma endsAtRejectedComment_bind {A B} (m : M A) (f : A -> M B) :
  endsAtRejectedComment m ->
  (forall a, completion m = Ok a -> endsAtRejectedComment (f a)) ->
  endsAtRejectedComment (bind m f).
Proof.
  destruct m as [t [a | e]]; intros [Hl Hr] Hf; cbn [trace completion fst snd]
    in *.
  - assert (Hclean : existsb isRejectedComment t = false).
    { destruct (existsb isRejectedComment t); [| reflexivity].
      destruct (Hr eq_refl) as [e He]. discriminate. }
    destruct (Hf a eq_refl) as [Hl' Hr'].
    simpl. destruct (f a) as [t' r']. cbn [trace completion fst snd] in *.
    unfold endsAtRejectedComment. cbn [trace completion fst snd].
    rewrite rejectedCommentIsLast_app, existsb_app, Hclean by assumption.
    split; assumption.
  - split; [assumption | simpl; eauto].
Qed.

Lemma endsAtRejectedComment_try_catch {A} (m : M A) (h : exn -> M A) :
  existsb isRejectedComment (trace m) = false ->
  (forall e, completion m = Throw e -> endsAtRejectedComment (h e)) ->
  endsAtRejectedComment (try_catch m h).
Proof.
  destruct m as [t [a | e]]; intros Hclean Hh;
    cbn [trace completion fst snd] in *.
  - now apply endsAtRejectedComment_clean.
  - destruct (Hh e eq_refl) as [Hl' Hr'].
    simpl. destruct (h e) as [t' r']. cbn [trace completion fst snd] in *.
    unfold endsAtRejectedComment. cbn [trace completion fst snd].
    rewrite rejectedCommentIsLast_app, existsb_app, Hclean by assumption.
    split; assumption.
Qed.

Lemma endsAtRejectedComment_sendComment (c : Octokit) (o r n b : string) :
  endsAtRejectedComment (sendComment c o r n b).
Proof.
  unfold sendComment, endsAtRejectedComment. step.
  destruct (issues_createComment c o r n b) as [[] | e]; simpl.
  - split; [reflexivity | discriminate].
  - split; [reflexivity | eauto].
Qed.

Ltac rejected :=
  repeat match goal with
    | |- endsAtRejectedComment (bind _ _) =>
        apply endsAtRejectedComment_bind; [| intros ? _]
    | |- endsAtRejectedComment (try_catch _ _) =>
        apply endsAtRejectedComment_try_catch;
        [match goal with
         | |- context [await _ ?r] => destruct r; reflexivity
         end | intros ? _]
    | |- endsAtRejectedComment (sendComment _ _ _ _ _) =>
        apply endsAtRejectedComment_sendComment
    | |- endsAtRejectedComment (if ?b then _ else _) => destruct b
    | |- endsAtRejectedComment (match ?x with Some _ => _ | None => _ end) =>
        destruct x
    | |- endsAtRejectedComment _ =>
        apply endsAtRejectedComment_clean; reflexivity
    end.

Section Rejected.

Variable newClient : string -> Octokit.
Variable i : Input.t.

Lemma expandTeams_endsAtRejectedComment (teams : list Team) :
  forall admins,
    endsAtRejectedComment (expandTeams newClient i admins teams).
Proof.
  induction teams as [| team rest IH]; intros admins; cbn [expandTeams].
  - rejected.
  - apply endsAtRejectedComment_bind; [| intros ? _; apply IH].
    unfold expandTeam. rejected.
Qed.

Lemma appendEmails_clean (admins : list string) :
  forall body,
    existsb isRejectedComment (trace (appendEmails newClient i body admins))
    = false.
Proof.
  induction admins as [| a rest IH]; intros body; [reflexivity |].
  cbn [appendEmails]. step.
  destruct (users_getByUsername (client newClient i) a) as [u | e]; step;
    [| reflexivity].
  specialize (IH (body ++ "- " ++ template_nullable (email u) ++ lf)%string).
  destruct (appendEmails newClient i _ rest) as [t r]. exact IH.
Qed.

Lemma main_endsAtRejectedComment : endsAtRejectedComment (main newClient i).
Proof.
  unfold main.
  apply endsAtRejectedComment_bind; [unfold verifyRepository; rejected |].
  intros [] _; [rejected |]. unfold resolveAndReport.
  apply endsAtRejectedComment_bind.
  - unfold resolveAdmins.
    apply endsAtRejectedComment_bind;
      [unfold listDirectMembers; rejected | intros ms _].
    apply endsAtRejectedComment_bind;
      [unfold filterAdmins; rejected | intros admins _].
    apply endsAtRejectedComment_bind;
      [unfold listRepoTeams; rejected | intros ts _].
    apply endsAtRejectedComment_bind;
      [unfold filterAdminTeams; rejected | intros adminTeams _].
    apply expandTeams_endsAtRejectedComment.
  - intros admins _. apply endsAtRejectedComment_bind.
    + unfold reportAdmins. destruct (List.length admins =? 0)%nat.
      * rejected.
      * apply endsAtRejectedComment_bind;
          [apply endsAtRejectedComment_clean, appendEmails_clean |].
        intros body _. rejected.
    + intros _ _. unfold closeIssueIfRequested.
      destruct (closeIssue i); rejected.
Qed.

End Rejected.

(** X5.  A [createComment] request that is rejected is never caught: in
    every run such a request is the last event of the log, and [main]
    throws.  What the handler had still to do -- [core.setFailed], the
    remaining teams, the issue update -- is not done. *)
Theorem rejected_comment_ends_the_run
    (newClient : string -> Octokit) (i : Input.t) :
  existsb isRejectedComment (trace (main newClient i)) = true ->
  rejectedCommentIsLast (trace (main newClient i)) = true
  /\ exists e, completion (main newClient i) = Throw e.
Proof.
  intros H. destruct (main_endsAtRejectedComment newClient i) as [Hl Hr].
  auto.
Qed.

(** X5, at a team that cannot be listed while comments are rejected: the
    run stops before [core.setFailed] and before the next team. *)
Lemma rejected_comment_ends_the_run_witness :
  let world := fun _ : string =>
    mkOctokit (fun _ _ => Ok tt)
      (fun _ _ _ _ => Ok [Scenario.alice])
      (fun _ _ => Ok [Scenario.core; Scenario.sre])
      (fun _ team_slug _ => Scenario.coreFails team_slug)
      (fun u => Ok (Scenario.profiles u))
      (fun _ _ _ _ => Throw Scenario.notFound)
      (fun _ _ _ _ => Ok tt) in
  requests (trace (main world Scenario.inputs))
  = [ReposGet "acme" "widgets";
     ListCollaborators "acme" "widgets" "direct" 100;
     ListTeams "acme" "widgets";
     ListMembersInOrg "acme" "core" 100;
     CreateComment "ops" "requests" "7"
       (comment_teamMemberLookupError Scenario.inputs "Core" "Server Error")]
  /\ markedFailed (trace (main world Scenario.inputs)) = false
  /\ rejectedCommentIsLast (trace (main world Scenario.inputs)) = true
  /\ exists e, completion (main world Scenario.inputs) = Throw e.
Proof.
  intros world. split; [reflexivity |]. split; [reflexivity |].
  apply (rejected_comment_ends_the_run world Scenario.inputs).
  reflexivity.
Defined.

(** *** No failure mark without a comment *)

Lemma failuresFollowComments_app (t1 t2 : list event) :
  wellMarked t2 ->
  forall commented,
    failuresFollowComments commented t1 = true ->
    failuresFollowComments commented (t1 ++ t2) = true.
Proof.
  intros H2. induction t1 as [| ev t IH]; intros c H1; [apply H2 |].
  destruct ev as [msg | msg | q ok]; cbn [app failuresFollowComments] in *.
  - now apply IH.
  - apply andb_true_iff in H1 as [-> H1]. now apply IH.
  - destruct q, ok; now apply IH.
Qed.

Lemma wellMarked_app (t1 t2 : list event) :
  wellMarked t1 -> wellMarked t2 -> wellMarked (t1 ++ t2).
Proof.
  intros H1 H2 c. now apply failuresFollowComments_app.
Qed.

Lemma wellMarked_bind {A B} (m : M A) (f : A -> M B) :
  wellMarked (trace m) ->
  (forall a, wellMarked (trace (f a))) ->
  wellMarked (trace (bind m f)).
Proof.
  destruct m as [t [a | e]]; simpl; intros Ht Hf; [| assumption].
  specialize (Hf a). destruct (f a) as [t' r']. simpl in *.
  now apply wellMarked_app.
Qed.

Lemma wellMarked_try_catch {A} (m : M A) (h : exn -> M A) :
  wellMarked (trace m) ->
  (forall e, wellMarked (trace (h e))) ->
  wellMarked (trace (try_catch m h)).
Proof.
  destruct m as [t [a | e]]; simpl; intros Ht Hh; [assumption |].
  specialize (Hh e). destruct (h e) as [t' r']. simpl in *.
  now apply wellMarked_app.
Qed.

Ltac commented :=
  unfold sendComment; step;
  match goal with
  | |- context [issues_createComment ?c ?o ?r ?n ?b] =>
      destruct (issues_createComment c o r n b) as [[] | ?]
  end;
  intros ?; reflexivity.

Ltac marked :=
  repeat match goal with
    | |- wellMarked (trace (bind (sendComment _ _ _ _ _) _)) => commented
    | |- wellMarked (trace (sendComment _ _ _ _ _)) => commented
    | |- wellMarked (trace (bind _ _)) =>
        apply wellMarked_bind; [| intros ?]
    | |- wellMarked (trace (try_catch _ _)) =>
        apply wellMarked_try_catch; [| intros ?]
    | |- wellMarked (trace (if ?b then _ else _)) => destruct b
    | |- wellMarked (trace (match ?x with Some _ => _ | None => _ end)) =>
        destruct x
    | |- wellMarked (trace (await _ ?r)) => intros ?; reflexivity
    | |- wellMarked _ => intros ?; reflexivity
    end.

Section Marked.

Variable newClient : string -> Octokit.
Variable i : Input.t.

Lemma expandTeams_wellMarked (teams : list Team) :
  forall admins, wellMarked (trace (expandTeams newClient i admins teams)).
Proof.
  induction teams as [| team rest IH]; intros admins; cbn [expandTeams].
  - marked.
  - apply wellMarked_bind; [| intros ?; apply IH].
    unfold expandTeam. marked.
Qed.

Lemma appendEmails_wellMarked (admins : list string) :
  forall body, wellMarked (trace (appendEmails newClient i body admins)).
Proof.
  induction admins as [| a rest IH]; intros body; cbn [appendEmails].
  - marked.
  - apply wellMarked_bind; [marked | intros _].
    apply wellMarked_bind; [marked | intros u]. apply IH.
Qed.

Lemma main_wellMarked : wellMarked (trace (main newClient i)).
Proof.
  unfold main.
  apply wellMarked_bind; [unfold verifyRepository; marked |].
  intros []; [marked |]. unfold resolveAndReport.
  apply wellMarked_bind.
  - unfold resolveAdmins.
    apply wellMarked_bind; [unfold listDirectMembers; marked | intros ms].
    apply wellMarked_bind; [unfold filterAdmins; marked | intros admins].
    apply wellMarked_bind; [unfold listRepoTeams; marked | intros ts].
    apply wellMarked_bind;
      [unfold filterAdminTeams; marked | intros adminTeams].
    apply expandTeams_wellMarked.
  - intros admins. apply wellMarked_bind.
    + unfold reportAdmins. destruct (List.length admins =? 0)%nat.
      * marked.
      * apply wellMarked_bind; [apply appendEmails_wellMarked |].
        intros body. marked.
    + intros _. unfold closeIssueIfRequested. marked.
Qed.

End Marked.

(** X9.  In every run, every call of [core.setFailed] comes right after a
    comment that was posted: [main] never marks the run failed without
    having told the issue why in the request just before. *)
Theorem failure_marks_follow_comments
    (newClient : string -> Octokit) (i : Input.t) :
  failuresFollowComments false (trace (main newClient i)) = true.
Proof. apply main_wellMarked. Qed.

(** *** No request without a reason *)

Ltac unjustified :=
  repeat match goal with
    | |- Forall _ (trace (bind _ _)) =>
        apply Forall_trace_bind; [| intros ? _]
    | |- Forall _ (trace (try_catch _ _)) =>
        apply Forall_trace_try_catch; [| intros ? _]
    | |- Forall _ (trace (if ?b then _ else _)) => destruct b
    | |- Forall _ (trace (match ?x with Some _ => _ | None => _ end)) =>
        destruct x
    | |- Forall _ (trace (sendComment _ _ _ _ _)) => unfold sendComment
    | |- Forall _ (trace _) => simpl; repeat constructor
    end.

Section Justified.

Variable newClient : string -> Octokit.
Variable i : Input.t.

Lemma listRepoTeams_inv (ts : list Team) :
  completion (listRepoTeams newClient i) = Ok (Some ts) ->
  repos_listTeams (client newClient i) (Input.org i) (queryRepo i) = Ok ts.
Proof.
  unfold listRepoTeams, sendComment.
  destruct (repos_listTeams (client newClient i) (Input.org i)
              (queryRepo i)) as [ts' | e]; step.
  - now intros [= ->].
  - destruct (issues_createComment _ _ _ _ _); discriminate.
Qed.

Lemma expandTeams_reason (ts teams : list Team) :
  repos_listTeams (client newClient i) (Input.org i) (queryRepo i) = Ok ts ->
  incl teams (adminTeamsOf ts) ->
  forall admins,
    Forall (justifiedEvent newClient i) (trace (expandTeams newClient i admins teams)).
Proof.
  intros Hts. induction teams as [| team rest IH]; intros Hin admins;
    cbn [expandTeams].
  - constructor.
  - apply Forall_trace_bind;
      [| intros ? _; apply IH; intros t Ht; apply Hin; simpl; auto].
    assert (Hteam : In team (adminTeamsOf ts)) by (apply Hin; simpl; auto).
    apply filter_In in Hteam as [Hteam Hperm].
    apply String.eqb_eq in Hperm.
    unfold expandTeam. unjustified.
    exists ts, team. auto 10.
Qed.

Lemma appendEmails_reason (admins : list string) :
  completion (resolveAdmins newClient i) = Ok admins ->
  forall rest body,
    incl rest admins ->
    Forall (justifiedEvent newClient i) (trace (appendEmails newClient i body rest)).
Proof.
  intros Hr. induction rest as [| a rest IH]; intros body Hin;
    cbn [appendEmails].
  - constructor.
  - apply Forall_trace_bind; [simpl; repeat constructor | intros _ _].
    apply Forall_trace_bind.
    + simpl. repeat constructor. exists admins. split; [assumption |].
      apply Hin. simpl; auto.
    + intros u _. apply IH. intros b Hb. apply Hin. simpl; auto.
Qed.

Lemma main_reason : Forall (justifiedEvent newClient i) (trace (main newClient i)).
Proof.
  unfold main.
  apply Forall_trace_bind; [unfold verifyRepository; unjustified |].
  intros [] _; [constructor |]. unfold resolveAndReport.
  apply Forall_trace_bind.
  - unfold resolveAdmins.
    apply Forall_trace_bind;
      [unfold listDirectMembers; unjustified | intros ms _].
    apply Forall_trace_bind;
      [unfold filterAdmins; unjustified | intros admins _].
    apply Forall_trace_bind;
      [unfold listRepoTeams; unjustified | intros ts Hts].
    destruct ts as [ts |]; cbn [filterAdminTeams].
    + apply listRepoTeams_inv in Hts.
      apply Forall_trace_bind; [constructor | intros adminTeams [= <-]].
      now apply (expandTeams_reason ts), incl_refl.
    + constructor.
  - intros admins Hr. apply Forall_trace_bind.
    + unfold reportAdmins. destruct (List.length admins =? 0)%nat.
      * unjustified.
      * apply Forall_trace_bind;
          [now apply (appendEmails_reason admins), incl_refl |].
        intros body _. unjustified.
    + intros _ _. unfold closeIssueIfRequested. unjustified.
Qed.

Lemma main_justified :
  Forall (justified newClient i) (requests (trace (main newClient i))).
Proof.
  pose proof main_reason as H.
  induction H as [| ev t Hev _ IH]; [constructor |].
  destruct ev as [msg | msg | q ok]; simpl; auto.
Qed.

End Justified.

(** X10.  The members of a team are requested only for a team of the
    listing whose permission is exactly ['admin'], under [org] and 100
    per page: teams with any other permission are never expanded, and
    nothing is expanded when the team listing did not resolve. *)
Theorem only_admin_teams_are_expanded
    (newClient : string -> Octokit) (i : Input.t)
    (o s : string) (p : Z) :
  In (ListMembersInOrg o s p) (requests (trace (main newClient i))) ->
  exists ts team,
    repos_listTeams (client newClient i) (Input.org i) (queryRepo i) = Ok ts
    /\ In team ts
    /\ permission team = "admin"
    /\ s = slug team /\ o = Input.org i /\ p = 100%Z.
Proof.
  intros Hin. pose proof (main_justified newClient i) as H.
  rewrite Forall_forall in H. exact (H _ Hin).
Qed.

(** X10, at the request for the members of [sre]. *)
Lemma only_admin_teams_are_expanded_witness :
  In (ListMembersInOrg "acme" "sre" 100)
     (requests (trace (main Scenario.healthy Scenario.inputs)))
  /\ ~ In (ListMembersInOrg "acme" "docs" 100)
       (requests (trace (main Scenario.healthy Scenario.inputs)))
  /\ exists ts team,
       repos_listTeams (client Scenario.healthy Scenario.inputs) "acme"
         "widgets" = Ok ts
       /\ In team ts
       /\ permission team = "admin"
       /\ "sre" = slug team /\ "acme" = "acme" /\ 100%Z = 100%Z.
Proof.
  assert (Hin : In (ListMembersInOrg "acme" "sre" 100)
                   (requests (trace (main Scenario.healthy
                                       Scenario.inputs))))
    by (simpl; auto 10).
  split; [exact Hin |]. split.
  - simpl. intros H.
    repeat (destruct H as [H | H]; [discriminate H |]). exact H.
  - exact (only_admin_teams_are_expanded Scenario.healthy Scenario.inputs
             "acme" "sre" 100 Hin).
Defined.

(** X11.  A profile is requested only for a login of the admin set: a
    direct collaborator whose [permissions.admin] is true, or a login
    listed by an admin team.  The profile of a collaborator without admin
    permission is not fetched unless an admin team lists the login. *)
Theorem profiles_only_of_admins
    (newClient : string -> Octokit) (i : Input.t) (u : string) :
  In (GetByUsername u) (requests (trace (main newClient i))) ->
  exists ms ts,
    repos_listCollaborators (client newClient i) (Input.org i) (queryRepo i)
      "direct" 100 = Ok ms
    /\ repos_listTeams (client newClient i) (Input.org i) (queryRepo i)
       = Ok ts
    /\ (In u (directAdmins ms)
        \/ exists team,
             In team (adminTeamsOf ts) /\ listedBy newClient i team u).
Proof.
  intros Hin. pose proof (main_justified newClient i) as H.
  rewrite Forall_forall in H. destruct (H _ Hin) as (admins & Hr & Hu).
  apply resolveAdmins_inv in Hr as (ms & ts & Hm & Ht & He).
  exists ms, ts. split; [assumption |]. split; [assumption |].
  apply expandTeams_extends in He as (ext & -> & _ & Hext).
  apply in_app_or in Hu as [Hu | Hu]; [now left | right].
  now apply Hext in Hu.
Qed.

(** X11, at the profile of [dave], whom only the team [sre] lists. *)
Lemma profiles_only_of_admins_witness :
  In (GetByUsername "dave")
     (requests (trace (main Scenario.healthy Scenario.inputs)))
  /\ ~ In (GetByUsername "bob")
       (requests (trace (main Scenario.healthy Scenario.inputs)))
  /\ exists ms ts,
       repos_listCollaborators (client Scenario.healthy Scenario.inputs)
         "acme" "widgets" "direct" 100 = Ok ms
       /\ repos_listTeams (client Scenario.healthy Scenario.inputs) "acme"
            "widgets" = Ok ts
       /\ (In "dave" (directAdmins ms)
           \/ exists team,
                In team (adminTeamsOf ts)
                /\ listedBy Scenario.healthy Scenario.inputs team "dave").
Proof.
  assert (Hin : In (GetByUsername "dave")
                   (requests (trace (main Scenario.healthy
                                       Scenario.inputs))))
    by (simpl; auto 10).
  split; [exact Hin |]. split.
  - simpl. intros H.
    repeat (destruct H as [H | H]; [discriminate H |]). exact H.
  - exact (profiles_only_of_admins Scenario.healthy Scenario.inputs "dave"
             Hin).
Defined.

(** ** The expansion of teams, again *)

Lemma pushMembers_absorbed (members : list Member) (admins : list string) :
  (forall x, In x (map member_login members) -> In x admins) ->
  pushMembers admins members = admins.
Proof.
  induction members as [| m rest IH]; intros H; [reflexivity |].
  cbn [pushMembers].
  assert (E : includes admins (member_login m) = true)
    by (apply includes_In, H; simpl; auto).
  rewrite E. cbn [negb]. apply IH. intros x Hx. apply H. simpl; auto.
Qed.

Section Absorption.

Variable newClient : string -> Octokit.
Variable i : Input.t.

Lemma expandTeam_absorbed (before after admins : list string)
    (team : Team) :
  completion (expandTeam newClient i before team) = Ok after ->
  (forall x, listedBy newClient i team x -> In x admins) ->
  completion (expandTeam newClient i admins team) = Ok admins.
Proof.
  unfold expandTeam, sendComment, listedBy.
  destruct (teams_listMembersInOrg (client newClient i) (Input.org i)
              (slug team) 100) as [ms | e]; step.
  - intros _ H. f_equal. apply pushMembers_absorbed. eauto.
  - destruct (issues_createComment _ _ _ _ _); step;
      [reflexivity | discriminate].
Qed.

Lemma expandTeams_absorbed (teams : list Team) :
  forall before after admins,
    completion (expandTeams newClient i before teams) = Ok after ->
    (forall team x,
       In team teams -> listedBy newClient i team x -> In x admins) ->
    completion (expandTeams newClient i admins teams) = Ok admins.
Proof.
  induction teams as [| team rest IH]; intros before after admins H Hl;
    [reflexivity |].
  apply expandTeams_cons_inv in H as (a1 & H1 & H2).
  rewrite (expandTeams_cons _ _ _ admins).
  - cbn [completion snd]. eapply IH; [eassumption |].
    intros t x Ht. apply Hl. simpl; auto.
  - eapply expandTeam_absorbed; [eassumption |].
    intros x. apply Hl. simpl; auto.
Qed.

Lemma expandTeams_app_ok (l1 l2 : list Team) :
  forall admins a1,
    completion (expandTeams newClient i admins l1) = Ok a1 ->
    completion (expandTeams newClient i admins (l1 ++ l2))
    = completion (expandTeams newClient i a1 l2).
Proof.
  induction l1 as [| t l1 IH]; intros admins a1 H.
  - simpl in H. now injection H as <-.
  - apply expandTeams_cons_inv in H as (a0 & H0 & H).
    rewrite <- app_comm_cons, (expandTeams_cons _ _ _ a0) by assumption.
    cbn [completion snd]. now apply IH.
Qed.

End Absorption.

(** X12.  The expansion of the teams is idempotent: run again from the
    admin set it returned, over the same teams, it returns that set
    unchanged; so a team listing that repeats its teams gives the same
    admin set as the listing without the repetition. *)
Theorem expansion_is_idempotent
    (newClient : string -> Octokit) (i : Input.t)
    (teams : list Team) (admins admins' : list string) :
  completion (expandTeams newClient i admins teams) = Ok admins' ->
  completion (expandTeams newClient i admins' teams) = Ok admins'
  /\ completion (expandTeams newClient i admins (teams ++ teams))
     = Ok admins'.
Proof.
  intros H.
  assert (H' : completion (expandTeams newClient i admins' teams)
               = Ok admins').
  { eapply expandTeams_absorbed; [exact H |].
    intros team x. now apply (expandTeams_members _ _ _ _ _ H). }
  split; [exact H' |].
  now rewrite (expandTeams_app_ok _ _ _ _ _ _ H).
Qed.

(** X12, at two admin teams that share a member, one of which cannot be
    listed. *)
Lemma expansion_is_idempotent_witness :
  completion (expandTeams Scenario.coreUnlisted Scenario.inputs ["alice"]
                [Scenario.core; Scenario.sre])
  = Ok ["alice"; "carol"; "dave"]
  /\ completion (expandTeams Scenario.coreUnlisted Scenario.inputs
                   ["alice"; "carol"; "dave"] [Scenario.core; Scenario.sre])
     = Ok ["alice"; "carol"; "dave"]
  /\ completion (expandTeams Scenario.coreUnlisted Scenario.inputs ["alice"]
                   ([Scenario.core; Scenario.sre]
                    ++ [Scenario.core; Scenario.sre]))
     = Ok ["alice"; "carol"; "dave"].
Proof.
  split; [reflexivity |].
  apply (expansion_is_idempotent Scenario.coreUnlisted Scenario.inputs
           [Scenario.core; Scenario.sre] ["alice"]
           ["alice"; "carol"; "dave"] eq_refl).
Defined.

(** ** The queried repository *)

Lemma afterLastSpace_has_no_space (s : string) :
  hasSpace (afterLastSpace s) = false.
Proof.
  induction s as [| c s IH]; [reflexivity |].
  cbn [afterLastSpace].
  destruct (isSpace c || hasSpace s) eqn:E; [exact IH | exact E].
Qed.

Lemma afterLastSpace_suffix (s : string) :
  exists before, s = (before ++ afterLastSpace s)%string.
Proof.
  induction s as [| c s (before & IH)]; [now exists EmptyString |].
  cbn [afterLastSpace]. destruct (isSpace c || hasSpace s).
  - exists (String c before). simpl. now rewrite <- IH.
  - now exists EmptyString.
Qed.

(** X13.  The name of the queried repository contains no U+0020, it is
    what the trimmed [body] ends with, and it is empty only when the
    trimmed [body] is empty: a body of white space alone makes [main]
    check the repository with the empty name. *)
Theorem queryRepo_shape (i : Input.t) :
  hasSpace (queryRepo i) = false
  /\ (exists before,
        trim (Input.body i) = (before ++ queryRepo i)%string)
  /\ (queryRepo i = EmptyString <-> trim (Input.body i) = EmptyString).
Proof.
  unfold queryRepo, _body. rewrite last_split_space.
  split; [apply afterLastSpace_has_no_space |].
  split; [apply afterLastSpace_suffix |]. split.
  - intros E. destruct (trimEnd_ends_clean (trimStart (Input.body i)))
      as [H | H]; [exact H | contradiction].
  - unfold trim. now intros ->.
Qed.

(** ** The two clients *)

Lemma bind_ext {A B} (m : M A) (f g : A -> M B) :
  (forall a, f a = g a) -> bind m f = bind m g.
Proof.
  intros H. destruct m as [t [a | e]]; simpl; [now rewrite H | reflexivity].
Qed.

Section TwoClients.

Variables (newClient newClient' : string -> Octokit).
Variable i : Input.t.
Hypothesis Hlookups :
  sameLookups (newClient (Input.admin_token i))
              (newClient' (Input.admin_token i)).
Hypothesis Hissues :
  sameIssueCalls (newClient (Input.token i)) (newClient' (Input.token i)).

Lemma sendComment_same (o r n b : string) :
  sendComment (commentClient newClient i) o r n b
  = sendComment (commentClient newClient' i) o r n b.
Proof.
  unfold sendComment, commentClient. now rewrite (proj1 Hissues).
Qed.

Lemma verifyRepository_same :
  verifyRepository newClient i = verifyRepository newClient' i.
Proof.
  destruct Hlookups as (Hget & _).
  unfold verifyRepository, client. rewrite Hget.
  destruct (repos_get _ _ _); step; [reflexivity |].
  now rewrite !sendComment_same.
Qed.

Lemma listDirectMembers_same :
  listDirectMembers newClient i = listDirectMembers newClient' i.
Proof.
  destruct Hlookups as (_ & Hcol & _).
  unfold listDirectMembers, client. rewrite Hcol.
  destruct (repos_listCollaborators _ _ _ _ _); step; [reflexivity |].
  now rewrite !sendComment_same.
Qed.

Lemma listRepoTeams_same :
  listRepoTeams newClient i = listRepoTeams newClient' i.
Proof.
  destruct Hlookups as (_ & _ & Hteams & _).
  unfold listRepoTeams, client. rewrite Hteams.
  destruct (repos_listTeams _ _ _); step; [reflexivity |].
  now rewrite !sendComment_same.
Qed.

Lemma expandTeam_same (admins : list string) (team : Team) :
  expandTeam newClient i admins team = expandTeam newClient' i admins team.
Proof.
  destruct Hlookups as (_ & _ & _ & Hmem & _).
  unfold expandTeam, client. rewrite Hmem.
  destruct (teams_listMembersInOrg _ _ _ _); step; [reflexivity |].
  now rewrite !sendComment_same.
Qed.

Lemma expandTeams_same (teams : list Team) :
  forall admins,
    expandTeams newClient i admins teams
    = expandTeams newClient' i admins teams.
Proof.
  induction teams as [| team rest IH]; intros admins; [reflexivity |].
  cbn [expandTeams]. rewrite expandTeam_same. now apply bind_ext.
Qed.

Lemma appendEmails_same (admins : list string) :
  forall body,
    appendEmails newClient i body admins
    = appendEmails newClient' i body admins.
Proof.
  destruct Hlookups as (_ & _ & _ & _ & Huser).
  induction admins as [| a rest IH]; intros body; [reflexivity |].
  cbn [appendEmails]. unfold client at 1 2. rewrite Huser.
  apply bind_ext. intros _. apply bind_ext. intros u. apply IH.
Qed.

Lemma main_same : main newClient i = main newClient' i.
Proof.
  unfold main. rewrite verifyRepository_same.
  apply bind_ext. intros [|]; [reflexivity |].
  unfold resolveAndReport, resolveAdmins.
  rewrite listDirectMembers_same, listRepoTeams_same.
  assert (Hres : forall ms,
             bind (filterAdmins ms)
               (fun admins =>
                  bind (listRepoTeams newClient' i)
                    (fun teams =>
                       bind (filterAdminTeams teams)
                         (fun adminTeams =>
                            expandTeams newClient i admins adminTeams)))
             = bind (filterAdmins ms)
                 (fun admins =>
                    bind (listRepoTeams newClient' i)
                      (fun teams =>
                         bind (filterAdminTeams teams)
                           (fun adminTeams =>
                              expandTeams newClient' i admins adminTeams)))).
  { intros ms. apply bind_ext. intros admins. apply bind_ext. intros teams.
    apply bind_ext. intros adminTeams. apply expandTeams_same. }
  rewrite (bind_ext _ _ _ Hres).
  apply bind_ext. intros admins.
  assert (Hrep : reportAdmins newClient i admins
                 = reportAdmins newClient' i admins).
  { unfold reportAdmins. destruct (List.length admins =? 0)%nat.
    - now rewrite sendComment_same.
    - rewrite appendEmails_same. apply bind_ext. intros body.
      apply sendComment_same. }
  rewrite Hrep. apply bind_ext. intros _.
  unfold closeIssueIfRequested, commentClient.
  now rewrite (proj2 Hissues).
Qed.

End TwoClients.

(** X14.  The two tokens are kept apart: a run is determined by what the
    client of [admin_token] answers to the five lookups and by what the
    client of [token] answers to comments and to the issue update.  The
    client of [admin_token] is never asked to comment or to close, the
    client of [token] is never asked to look anything up, and no client
    is made from another string. *)
Theorem tokens_are_kept_apart
    (newClient newClient' : string -> Octokit) (i : Input.t) :
  sameLookups (newClient (Input.admin_token i))
              (newClient' (Input.admin_token i)) ->
  sameIssueCalls (newClient (Input.token i)) (newClient' (Input.token i)) ->
  main newClient i = main newClient' i.
Proof. intros Hl Hi. now apply main_same. Qed.

(** X14, at two worlds that differ where [main] does not look: the
    second one rejects every lookup made with [token] and every comment
    made with [admin_token]. *)
Lemma tokens_are_kept_apart_witness :
  let refusing := fun tok : string =>
    if String.eqb tok "admin-token"
    then mkOctokit (fun _ _ => Ok tt)
           (fun _ _ _ _ => Ok [Scenario.alice; Scenario.bob])
           (fun _ _ => Ok [Scenario.core; Scenario.docs; Scenario.sre])
           (fun _ team_slug _ => Scenario.coreMembers team_slug)
           (fun u => Ok (Scenario.profiles u))
           (fun _ _ _ _ => Throw Scenario.serverError)
           (fun _ _ _ _ => Throw Scenario.serverError)
    else mkOctokit (fun _ _ => Throw Scenario.serverError)
           (fun _ _ _ _ => Throw Scenario.serverError)
           (fun _ _ => Throw Scenario.serverError)
           (fun _ _ _ => Throw Scenario.serverError)
           (fun _ => Throw Scenario.serverError)
           (fun _ _ _ _ => Ok tt)
           (fun _ _ _ _ => Ok tt) in
  main Scenario.healthy Scenario.inputs = main refusing Scenario.inputs.
Proof.
  intros refusing.
  apply (tokens_are_kept_apart Scenario.healthy refusing Scenario.inputs).
  - repeat split.
  - repeat split.
Defined.

(** ** The throttling handlers *)

(** X15.  For every request, [onRateLimit] logs the warning
    ["Request quota exhausted for request METHOD URL"] and
    [onSecondaryRateLimit] the warning
    ["Abuse detected for request METHOD URL"]; when [request.retryCount]
    is 0 each then logs ["Retrying after N seconds!"] and returns [true],
    otherwise it logs nothing more and returns [undefined].  So the two
    handlers decide alike, they grant a retry exactly when the count is
    0, they never return [false], and they announce a retry only when
    they grant it. *)
Theorem throttling_retries_once (retryAfter : Z) (options : RequestOptions) :
  let announcement :=
    LogInfo ("Retrying after "
             ++ NilZero.string_of_int (Z.to_int retryAfter)
             ++ " seconds!") in
  onRateLimit retryAfter options
  = (LogWarn ("Request quota exhausted for request " ++ method options
              ++ " " ++ url options)
       :: (if (request_retryCount options =? 0)%Z
           then [announcement] else []),
     if (request_retryCount options =? 0)%Z then Some true else None)
  /\ onSecondaryRateLimit retryAfter options
     = (LogWarn ("Abuse detected for request " ++ method options ++ " "
                 ++ url options)
          :: (if (request_retryCount options =? 0)%Z
              then [announcement] else []),
        if (request_retryCount options =? 0)%Z then Some true else None)
  /\ snd (onRateLimit retryAfter options)
     = snd (onSecondaryRateLimit retryAfter options)
  /\ (snd (onRateLimit retryAfter options) = Some true
      <-> request_retryCount options = 0%Z)
  /\ (snd (onRateLimit retryAfter options) = None
      <-> request_retryCount options <> 0%Z)
  /\ (In announcement (fst (onRateLimit retryAfter options))
      <-> snd (onRateLimit retryAfter options) = Some true)
  /\ (In announcement (fst (onSecondaryRateLimit retryAfter options))
      <-> snd (onSecondaryRateLimit retryAfter options) = Some true).
Proof.
  intros announcement. unfold onRateLimit, onSecondaryRateLimit.
  destruct (Z.eqb_spec (request_retryCount options) 0) as [E | E];
    cbn [fst snd app].
  - repeat split; try reflexivity; try congruence;
      intros _; simpl; auto.
  - repeat split; try reflexivity; try congruence; try discriminate;
      simpl; intros [H | []]; discriminate H.
Qed.

(** ** After a failed existence check *)

(** X16.  When the existence check rejects with a status other than 404,
    the handler comments and marks the run failed, and [main] then runs
    lines 71-141 exactly as it does when the check resolves: the listings,
    the expansion, the report and the issue update follow, and the run
    completes as they do. *)
Theorem verification_error_runs_the_rest
    (newClient : string -> Octokit) (i : Input.t) (e : exn) :
  commentsResolve newClient i ->
  repos_get (client newClient i) (Input.org i) (queryRepo i) = Throw e ->
  status_is e 404 = false ->
  main newClient i
  = ([Info ("Verifying repository " ++ Input.org i ++ "/" ++ queryRepo i
            ++ " exists");
      Call (ReposGet (Input.org i) (queryRepo i)) false]
     ++ failureEvents i (comment_verificationError i (message e))
          (message e)
     ++ trace (resolveAndReport newClient i),
     completion (resolveAndReport newClient i)).
Proof.
  intros Hc He H404. unfold main.
  rewrite (verifyRepository_error _ _ e) by assumption.
  step. destruct (resolveAndReport newClient i) as [t r].
  reflexivity.
Qed.

(** X16, at an existence check that rejects with status 500. *)
Lemma verification_error_runs_the_rest_witness :
  completion (main Scenario.verificationFails Scenario.inputs)
  = completion (resolveAndReport Scenario.verificationFails Scenario.inputs)
  /\ completion (resolveAndReport Scenario.verificationFails Scenario.inputs)
     = Ok tt.
Proof.
  split; [| reflexivity].
  rewrite (verification_error_runs_the_rest Scenario.verificationFails
             Scenario.inputs Scenario.serverError
             (fun o r n b => eq_refl) eq_refl eq_refl).
  reflexivity.
Defined.
